(** * 10-K filing embeddings and the ungrounded chatbot

    A shallow embedding of the two notebooks of the hands-on lab:

    - the text-embedding notebook: [chunks], [create_text_embedding_entries],
      the loop over the filing files, and the batched Cypher upsert that
      writes [Document] nodes under their [Company] node;
    - the chatbot notebook: [chat_response].

    The hosted services (the text splitter, the embedding model, the
    completion model) are parameters of the development; the graph store is
    modelled by the nodes and relationships the upsert query reads and
    writes. *)

From Stdlib Require Import String Ascii ZArith Lia Bool Arith PeanoNat List.
From Stdlib Require Import Sorted DecimalString.
From Stdlib Require DecimalZ Finite.
Import ListNotations.

Local Open Scope string_scope.
Local Open Scope list_scope.

(** ** Python values *)

(** [str(i)] for a Python int: decimal digits, a leading minus sign for a
    negative number. *)
Definition str (i : Z) : string := NilZero.string_of_int (Z.to_int i).

(** ['.txt' in file_name]: substring test. *)
Definition contains (sub s : string) : bool :=
  match String.index 0 sub s with
  | Some _ => true
  | None => false
  end.

(** Exceptions. [IndexError] is the one the notebook itself can raise (list
    index out of range); everything a hosted service raises is an
    [ServiceError]. *)
Inductive pyexc : Type :=
| IndexError
| ServiceError (msg : string).

Inductive result (A : Type) : Type :=
| Ok (a : A)
| Raise (e : pyexc).
Arguments Ok {A} a.
Arguments Raise {A} e.

(** ** The chunking utility

<<
def chunks(xs, n=3):
    n = max(1, n)
    return [xs[i:i + n] for i in range(0, len(xs), n)]
>> *)

(** [range(start, stop, step)] for [step > 0]: CPython computes the number
    of elements as [(stop - start + step - 1) // step]. *)
Definition range (start stop step : nat) : list nat :=
  map (fun k => start + k * step) (seq 0 ((stop - start + step - 1) / step)).

(** The slice [xs[i:j]] for [0 <= i <= j]. *)
Definition slice {A : Type} (xs : list A) (i j : nat) : list A :=
  firstn (j - i) (skipn i xs).

Definition chunks {A : Type} (xs : list A) (n : Z) : list (list A) :=
  let n := Z.to_nat (Z.max 1 n) in
  map (fun i => slice xs i (i + n)) (range 0 (List.length xs) n).

(** The default batch size of [chunks] and the one of the upsert loop. *)
Definition default_n : Z := 3.
Definition upsert_batch_size : Z := 100.

(** ** Effects

    A call to a hosted service reads and changes the state of the outside
    world [W] (the service, its quota, the clock) and either returns or
    raises.  [M A] is a computation of the notebook: a state monad over [W]
    with exceptions. *)

Definition M (W A : Type) : Type := W -> result A * W.

Definition ret {W A : Type} (a : A) : M W A := fun w => (Ok a, w).

Definition bind {W A B : Type} (m : M W A) (k : A -> M W B) : M W B :=
  fun w =>
    match m w with
    | (Ok a, w') => k a w'
    | (Raise e, w') => (Raise e, w')
    end.

(** A computation without effects that may raise. *)
Definition lift {W A : Type} (r : result A) : M W A := fun w => (r, w).

(** An effect that cannot raise ([time.sleep]). *)
Definition tick {W : Type} (f : W -> W) : M W unit := fun w => (Ok tt, f w).

Notation "x <- m ;; k" := (bind m (fun x => k))
  (at level 61, m at next level, right associativity).

(** ** Data *)

(** One parsed filing ([f10_k]): the fields the notebook reads. *)
Record F10K : Type := mkF10K {
  item1 : string;
  f10k_companyName : string;
  f10k_cusip : string
}.

Section Lab.

(** The state of the outside world and the type of an embedding
    ([embeddings[i].values], a list of floats). *)
Variable W : Type.
Variable vector : Type.

(** The dictionary [create_text_embedding_entries] appends for a chunk. *)
Record Entry : Type := mkEntry {
  companyName : string;
  cusip : string;
  seqId : Z;
  contextId : string;
  textEmbedding : vector;
  text : string
}.

(** *** The graph store

    The part of the Neo4j graph the upsert query touches: [Company] nodes
    with their [cusip], [Document] nodes with the properties the query
    sets (a property may be absent), and [HAS] relationships from a company
    node to a document node.  Nodes carry the store's internal node id. *)
Record Company : Type := mkCompany {
  c_id : nat;
  c_cusip : string;
  c_companyName : string
}.

Record Document : Type := mkDocument {
  d_id : nat;
  documentId : string;
  documentType : option string;
  d_seqId : option Z;
  d_textEmbedding : option vector;
  d_text : option string
}.

Record Graph : Type := mkGraph {
  companies : list Company;
  documents : list Document;
  has : list (nat * nat);
  next_id : nat
}.

(** ** The hosted services *)

(** [text_splitter.split_text] of the [RecursiveCharacterTextSplitter]
    configured with [chunk_size = 2000] and [chunk_overlap = 15]. *)
Variable split_text : string -> list string.

(** [EMBEDDING_MODEL.get_embeddings]. *)
Variable get_embeddings : list string -> M W (list vector).

(** What [time.sleep(1)] does to the outside world. *)
Variable sleep : W -> W.

(** The unpacked archive: the parsed content of the file of a given name. *)
Variable form10k : string -> F10K.

(** [agent_chain], the completion model of the chatbot. *)
Variable agent_chain : string -> M W string.

(** ** The embedder

<<
def create_text_embedding_entries(input_text:str, company_name: str, cusip: str):
    ...
    docs = text_splitter.split_text(input_text)
    res = []
    seq_id = -1
    for d in chunks(docs):
        embeddings = EMBEDDING_MODEL.get_embeddings(d)
        time.sleep(1)
        for i in range(len(d)):
            seq_id += 1
            res.append({'companyName': company_name, 'cusip': cusip,
                        'seqId': seq_id, 'contextId': company_name + str(seq_id),
                        'textEmbedding': embeddings[i].values, 'text': d[i]})
    return res
>> *)

(** [xs[i]]: raises [IndexError] out of range. *)
Definition index {A : Type} (xs : list A) (i : nat) : result A :=
  match nth_error xs i with
  | Some x => Ok x
  | None => Raise IndexError
  end.

(** The dictionary built for position [i] of the batch [d]. *)
Definition entry (company_name cusip : string) (seq_id : Z)
    (embeddings : list vector) (d : list string) (i : nat) : result Entry :=
  match index embeddings i with
  | Raise e => Raise e
  | Ok v =>
      match index d i with
      | Raise e => Raise e
      | Ok t =>
          Ok {| companyName := company_name; cusip := cusip; seqId := seq_id;
                contextId := company_name ++ str seq_id;
                textEmbedding := v; text := t |}
      end
  end.

(** The inner loop, over the indices [is_] of the batch; the state is
    [(seq_id, res)]. *)
Fixpoint append_entries (company_name cusip : string)
    (embeddings : list vector) (d : list string) (is_ : list nat)
    (st : Z * list Entry) : result (Z * list Entry) :=
  match is_ with
  | [] => Ok st
  | i :: rest =>
      let seq_id := (fst st + 1)%Z in
      match entry company_name cusip seq_id embeddings d i with
      | Raise e => Raise e
      | Ok r =>
          append_entries company_name cusip embeddings d rest
            (seq_id, snd st ++ [r])
      end
  end.

(** The outer loop, over the batches of chunks. *)
Fixpoint embed_batches (company_name cusip : string)
    (batches : list (list string)) (st : Z * list Entry)
    : M W (Z * list Entry) :=
  match batches with
  | [] => ret st
  | d :: rest =>
      embeddings <- get_embeddings d ;;
      _ <- tick sleep ;;
      st' <- lift (append_entries company_name cusip embeddings d
                     (range 0 (List.length d) 1) st) ;;
      embed_batches company_name cusip rest st'
  end.

Definition create_text_embedding_entries
    (input_text company_name cusip : string) : M W (list Entry) :=
  let docs := split_text input_text in
  st <- embed_batches company_name cusip (chunks docs default_n)
          ((-1)%Z, []) ;;
  ret (snd st).

(** ** The loop over the filing files

<<
count = 0
embedding_entries = []
for file_name in file_names:
    if '.txt' in file_name:
        count += 1
        ...
        with open('/home/jupyter/form10k/' + file_name) as f:
            f10_k = json.load(f)
        embedding_entries.extend(create_text_embedding_entries(
            f10_k['item1'], f10_k['companyName'], f10_k['cusip']))
>>
    The state is [(count, embedding_entries)]. *)
Fixpoint embed_files (file_names : list string) (st : Z * list Entry)
    : M W (Z * list Entry) :=
  match file_names with
  | [] => ret st
  | file_name :: rest =>
      if contains ".txt" file_name then
        let count := (fst st + 1)%Z in
        let f10_k := form10k file_name in
        es <- create_text_embedding_entries
                (item1 f10_k) (f10k_companyName f10_k) (f10k_cusip f10_k) ;;
        embed_files rest (count, snd st ++ es)
      else embed_files rest st
  end.

(** [file_names = os.listdir('/home/jupyter/form10k/')[0:5]]. *)
Definition file_names (listing : list string) : list string :=
  slice listing 0 5.

Definition embedding_entries (listing : list string) : M W (list Entry) :=
  st <- embed_files (file_names listing) (0%Z, []) ;;
  ret (snd st).

(** ** The upsert query

<<
UNWIND $records AS record
MATCH(c:Company {cusip:record.cusip})
MERGE(b:Document {documentId:record.contextId})
SET b.documentType = 'FORM_10K_ITEM1', b.seqId = record.seqId,
    b.textEmbedding = record.textEmbedding, b.text = record.text
MERGE(c)-[:HAS]->(b)
RETURN count(b) as cnt
>>
    [UNWIND] and [MATCH] give one row [(record, c)] for every record and
    every company node with the record's cusip; [MATCH] reads the graph as
    it is before the query, and no clause creates or changes a [Company]
    node.  The clauses after [MATCH] run once for every row, in the order
    of the rows, and a [MERGE] sees the nodes and relationships written for
    the rows before. *)

(** [MATCH(c:Company {cusip:record.cusip})]: the company nodes with the
    record's cusip, none when no company has it. *)
Definition match_company (g : Graph) (record : Entry) : list Company :=
  filter (fun c => String.eqb (c_cusip c) (cusip record)) (companies g).

(** The rows after [UNWIND] and [MATCH]. *)
Definition match_rows (g : Graph) (records : list Entry)
    : list (Entry * Company) :=
  flat_map (fun record => map (pair record) (match_company g record)) records.

(** A node created by [MERGE(b:Document {documentId: id})]. *)
Definition new_document (n : nat) (id : string) : Document :=
  {| d_id := n; documentId := id; documentType := None; d_seqId := None;
     d_textEmbedding := None; d_text := None |}.

(** [MERGE(b:Document {documentId: id})]: binds [b] to every document
    with that id, and creates one when there is none. *)
Definition merge_document (g : Graph) (id : string) : Graph * list nat :=
  match filter (fun b => String.eqb (documentId b) id) (documents g) with
  | [] =>
      ({| companies := companies g;
          documents := documents g ++ [new_document (next_id g) id];
          has := has g;
          next_id := S (next_id g) |},
       [next_id g])
  | found => (g, map d_id found)
  end.

Definition set_document (record : Entry) (b : Document) : Document :=
  {| d_id := d_id b; documentId := documentId b;
     documentType := Some "FORM_10K_ITEM1";
     d_seqId := Some (seqId record);
     d_textEmbedding := Some (textEmbedding record);
     d_text := Some (text record) |}.

(** [SET b.documentType = ..., b.seqId = ..., ...] on the node [b]. *)
Definition set_properties (g : Graph) (b : nat) (record : Entry) : Graph :=
  {| companies := companies g;
     documents :=
       map (fun d => if Nat.eqb (d_id d) b then set_document record d else d)
         (documents g);
     has := has g;
     next_id := next_id g |}.

(** [MERGE(c)-[:HAS]->(b)]: creates the relationship when there is none. *)
Definition merge_has (g : Graph) (c : Company) (b : nat) : Graph :=
  if existsb (fun r => Nat.eqb (fst r) (c_id c) && Nat.eqb (snd r) b) (has g)
  then g
  else {| companies := companies g; documents := documents g;
          has := has g ++ [(c_id c, b)]; next_id := next_id g |}.

(** The clauses after [MATCH] on one row; the number is the number of
    rows that reach [RETURN]. *)
Definition upsert_row (g : Graph) (row : Entry * Company) : Graph * nat :=
  let (record, c) := row in
  let (g1, bs) := merge_document g (contextId record) in
  (fold_left (fun g b => merge_has (set_properties g b record) c b) bs g1,
   List.length bs).

Definition upsert_rows (rows : list (Entry * Company)) (st : Graph * nat)
    : Graph * nat :=
  fold_left
    (fun st row =>
       let (g', n) := upsert_row (fst st) row in (g', snd st + n))
    rows st.

(** One [gds.run_cypher] of the upsert query with [params = {'records': d}]:
    the graph after it and the [cnt] it returns. *)
Definition run_upsert_query (records : list Entry) (g : Graph)
    : Graph * nat :=
  upsert_rows (match_rows g records) (g, 0).

(** ** The upsert loop

<<
total = len(emb_entries)
count = 0
for d in chunks(emb_entries, 100):
    gds.run_cypher(..., params = {'records':d})
    count += len(d)
    print(f'loaded {count} of {total}')
>>
    The state of the loop: the graph, the round trips made so far (the
    [records] of each [gds.run_cypher]) and [count]. *)
Record Loader : Type := mkLoader {
  graph : Graph;
  round_trips : list (list Entry);
  count : Z
}.

Definition upsert_batches (batches : list (list Entry)) (st : Loader)
    : Loader :=
  fold_left
    (fun st d =>
       {| graph := fst (run_upsert_query d (graph st));
          round_trips := round_trips st ++ [d];
          count := (count st + Z.of_nat (List.length d))%Z |})
    batches st.

Definition upsert_loop (emb_entries : list Entry) (g : Graph) : Loader :=
  upsert_batches (chunks emb_entries upsert_batch_size)
    {| graph := g; round_trips := []; count := 0%Z |}.

(** The notebook from the filings to the graph.  [pd.DataFrame] followed by
    [to_dict(orient='records')] gives back the list of dictionaries.  An
    exception in the embedding cell stops the run before the upsert cell. *)
Definition notebook (listing : list string) (g : Graph) : M W Loader :=
  emb_entries <- embedding_entries listing ;;
  ret (upsert_loop emb_entries g).

(** [MATCH(doc:Document) RETURN count(doc)]. *)
Definition document_count (g : Graph) : nat := List.length (documents g).

(** ** The chatbot

<<
memory = ConversationBufferMemory(memory_key = "chat_history", return_messages = True)
agent_chain = base_chain

def chat_response(input_text,history):
    try:
        return agent_chain(input_text)
    except:
        return "I'm sorry, there was an error retrieving the information you requested."
>> *)

Record ConversationBufferMemory : Type := mkMemory {
  memory_key : string;
  return_messages : bool;
  chat_memory : list (string * string)
}.

Definition memory : ConversationBufferMemory :=
  {| memory_key := "chat_history"; return_messages := true;
     chat_memory := [] |}.

Definition apology : string :=
  "I'm sorry, there was an error retrieving the information you requested.".

Definition chat_response (input_text : string)
    (history : list (string * string)) : M W string :=
  fun w =>
    match agent_chain input_text w with
    | (Ok answer, w') => (Ok answer, w')
    | (Raise _, w') => (Ok apology, w')
    end.

(** One turn of the chat interface in a module whose global [memory] holds
    [mem]: the interface calls [chat_response] with the text and its own
    history; the global is what it was. *)
Definition chat_turn (mem : ConversationBufferMemory) (input_text : string)
    (history : list (string * string))
    : W -> (result string * ConversationBufferMemory) * W :=
  fun w =>
    let (answer, w') := chat_response input_text history w in
    ((answer, mem), w').

End Lab.

Arguments mkEntry {vector}.
Arguments companyName {vector}.
Arguments cusip {vector}.
Arguments seqId {vector}.
Arguments contextId {vector}.
Arguments textEmbedding {vector}.
Arguments text {vector}.
Arguments mkDocument {vector}.
Arguments d_id {vector}.
Arguments documentId {vector}.
Arguments documentType {vector}.
Arguments d_seqId {vector}.
Arguments d_textEmbedding {vector}.
Arguments d_text {vector}.
Arguments mkGraph {vector}.
Arguments companies {vector}.
Arguments documents {vector}.
Arguments has {vector}.
Arguments next_id {vector}.
Arguments mkLoader {vector}.
Arguments graph {vector}.
Arguments round_trips {vector}.
Arguments count {vector}.
Arguments entry {vector}.
Arguments append_entries {vector}.
Arguments embed_batches {W vector}.
Arguments create_text_embedding_entries {W vector}.
Arguments embed_files {W vector}.
Arguments embedding_entries {W vector}.
Arguments match_company {vector}.
Arguments match_rows {vector}.
Arguments new_document {vector}.
Arguments merge_document {vector}.
Arguments set_document {vector}.
Arguments set_properties {vector}.
Arguments merge_has {vector}.
Arguments upsert_row {vector}.
Arguments upsert_rows {vector}.
Arguments run_upsert_query {vector}.
Arguments upsert_batches {vector}.
Arguments upsert_loop {vector}.
Arguments notebook {W vector}.
Arguments document_count {vector}.
Arguments chat_response {W}.
Arguments chat_turn {W}.

(** ** Reference functions for the statements *)

Section Reference.

Variable W : Type.
Variable vector : Type.
Variable split_text : string -> list string.
Variable get_embeddings : list string -> M W (list vector).
Variable sleep : W -> W.
Variable form10k : string -> F10K.

(** [res] is what [create_text_embedding_entries] returns for the filing
    of the file, in some state of the world. *)
Definition embedded_as (file_name : string) (res : list (Entry vector))
    : Prop :=
  exists w1 w2,
    create_text_embedding_entries split_text get_embeddings sleep
      (item1 (form10k file_name)) (f10k_companyName (form10k file_name))
      (f10k_cusip (form10k file_name)) w1
    = (Ok res, w2).

(** What the embedding model answers when it is asked for the batches one
    after the other, with the pause after each answer. *)
Fixpoint transcript (batches : list (list string))
    : M W (list (list vector)) :=
  match batches with
  | [] => ret []
  | d :: rest =>
      vs <- get_embeddings d ;;
      _ <- tick sleep ;;
      vss <- transcript rest ;;
      ret (vs :: vss)
  end.

(** The entries of a batch [d] answered by [vs], numbered after [seq_id]:
    position by position. *)
Fixpoint zip_entries (company_name cusip : string) (seq_id : Z)
    (d : list string) (vs : list vector) : list (Entry vector) :=
  match d, vs with
  | t :: d', v :: vs' =>
      {| companyName := company_name; cusip := cusip;
         seqId := seq_id + 1;
         contextId := company_name ++ str (seq_id + 1);
         textEmbedding := v; text := t |}
      :: zip_entries company_name cusip (seq_id + 1) d' vs'
  | _, _ => []
  end.

Fixpoint zip_batches (company_name cusip : string) (seq_id : Z)
    (batches : list (list string)) (vss : list (list vector))
    : list (Entry vector) :=
  match batches, vss with
  | d :: batches', vs :: vss' =>
      zip_entries company_name cusip seq_id d vs
      ++ zip_batches company_name cusip
           (seq_id + Z.of_nat (List.length d)) batches' vss'
  | _, _ => []
  end.

(** The chunks of the batches paired with the vectors answered for them:
    position [p] of a batch with position [p] of its answer. *)
Definition paired (batches : list (list string)) (vss : list (list vector))
    : list (string * vector) :=
  concat (map (fun p => combine (fst p) (snd p)) (combine batches vss)).

(** The files of a listing that contribute at least one record: a name
    with [.txt] in it and a text the splitter does not cut into nothing. *)
Definition contributing (split_text : string -> list string)
    (form10k : string -> F10K) (file_names : list string) : list string :=
  filter
    (fun f => negb (Nat.eqb (List.length (split_text (item1 (form10k f)))) 0))
    (filter (contains ".txt") file_names).

(** The document ids after a [MERGE] of [id]. *)
Definition merge_id (ids : list string) (id : string) : list string :=
  if existsb (String.eqb id) ids then ids else ids ++ [id].

End Reference.

Arguments transcript {W vector}.
Arguments embedded_as {W vector}.
Arguments zip_entries {vector}.
Arguments zip_batches {vector}.
Arguments paired {vector}.

(** [ceil(n / b)] as the spec writes it. *)
Definition ceil_div (n b : nat) : nat :=
  n / b + (if Nat.eqb (n mod b) 0 then 0 else 1).

(** The batch size [chunks] works with: [max(1, n)]. *)
Definition step_of (n : Z) : nat := Z.to_nat (Z.max 1 n).

(** Some company node has the record's cusip. *)
Definition matched {vector : Type} (g : Graph vector) (record : Entry vector)
    : bool :=
  existsb (fun c => String.eqb (c_cusip c) (cusip record)) (companies g).

(** The clauses after [MATCH] on one row, the graph only. *)
Definition upsert_row_graph {vector : Type} (g : Graph vector)
    (row : Entry vector * Company) : Graph vector :=
  fst (upsert_row g row).

(** The node id and the document id of every document. *)
Definition document_keys {vector : Type} (g : Graph vector)
    : list (nat * string) :=
  map (fun b => (d_id b, documentId b)) (documents g).

(** The document ids of a graph, in the order of its nodes. *)
Definition document_ids {vector : Type} (g : Graph vector) : list string :=
  map documentId (documents g).

(** [c] has a [HAS] relationship to a document whose id is [id]. *)
Definition linked {vector : Type} (g : Graph vector) (c : Company)
    (id : string) : Prop :=
  exists b, In b (documents g) /\ documentId b = id /\
            In (c_id c, d_id b) (has g).

(** ** The store after the load *)

(** The store gives every document node an id of its own, below the id it
    hands out next. *)
Definition well_formed {vector : Type} (g : Graph vector) : Prop :=
  NoDup (map d_id (documents g)) /\
  Forall (fun b => d_id b < next_id g) (documents g).

(** The last record of a list that has the synthetic id [id]. *)
Definition last_record {vector : Type} (records : list (Entry vector))
    (id : string) : option (Entry vector) :=
  fold_left
    (fun found record =>
       if String.eqb (contextId record) id then Some record else found)
    records None.

(** [SET] of the query for [record], on the documents [MERGE] binds for
    it: those with the record's synthetic id. *)
Definition overwrite {vector : Type} (record : Entry vector)
    (b : Document vector) : Document vector :=
  if String.eqb (documentId b) (contextId record)
  then set_document record b else b.

(** The documents whose id the last record of [records] with that id
    writes, the others as they are. *)
Definition stamp {vector : Type} (records : list (Entry vector))
    (b : Document vector) : Document vector :=
  match last_record records (documentId b) with
  | Some record => set_document record b
  | None => b
  end.

(** [(c)-[:HAS]->(n:Document)] for a company node [c]: one document for
    every relationship from [c] to a document node. *)
Definition has_documents {vector : Type} (g : Graph vector) (c : Company)
    : list (Document vector) :=
  flat_map
    (fun r =>
       if Nat.eqb (fst r) (c_id c)
       then filter (fun n => Nat.eqb (d_id n) (snd r)) (documents g)
       else [])
    (has g).

(** The rows of
<<
MATCH (c:Company)-[:HAS]->(n:Document)
RETURN c.companyName as companyName, n.documentId as documentId,
       n.text as text, n.textEmbedding as emb
>>
    The store returns them in an order of its own; here company by
    company. *)
Definition has_rows {vector : Type} (g : Graph vector)
    : list (string * string * option string * option vector) :=
  flat_map
    (fun c =>
       map (fun n => (c_companyName c, documentId n, d_text n,
                      d_textEmbedding n))
         (has_documents g c))
    (companies g).

(** [emb_df]: the same query with [LIMIT 1000]. *)
Definition emb_df {vector : Type} (g : Graph vector)
    : list (string * string * option string * option vector) :=
  firstn 1000 (has_rows g).

(** The check of the companies with documents:
<<
MATCH(b:Company)
WITH b, count{(b)-[:HAS]->(d:Document)} AS docCount
WITH count(b) AS total, sum(toInteger(docCount > 0)) AS numWithDocs
RETURN total, numWithDocs, round(100*toFloat(numWithDocs)/toFloat(total), 2) As PercWithDocs
>>
    [total] and [numWithDocs]; the percentage is a float. *)
Definition docCount {vector : Type} (g : Graph vector) (b : Company) : nat :=
  List.length (has_documents g b).

Definition total {vector : Type} (g : Graph vector) : nat :=
  List.length (companies g).

Definition numWithDocs {vector : Type} (g : Graph vector) : nat :=
  list_sum
    (map (fun b => if Nat.ltb 0 (docCount g b) then 1 else 0) (companies g)).

(** ** Stand-ins for the hosted services, for the examples *)

(** A splitter that cuts windows of [size] characters, each starting
    [size - overlap] characters after the one before. *)
Definition window_split (size overlap : nat) (s : string) : list string :=
  let len := String.length s in
  if Nat.eqb len 0 then []
  else map (fun p => String.substring p size s)
         (range 0 (Nat.max 1 (len - overlap)) (size - overlap)).

(** A model whose vector for a text is the list of its length; the world
    counts the calls. *)
Definition length_model (d : list string) : M nat (list (list Z)) :=
  fun w => (Ok (map (fun t => [Z.of_nat (String.length t)]) d), S w).

(** The same model out of quota from its second call on. *)
Definition quota_model (d : list string) : M nat (list (list Z)) :=
  fun w =>
    if Nat.leb 1 w then (Raise (ServiceError "quota exceeded"), S w)
    else length_model d w.

Definition no_sleep (w : nat) : nat := w.

(** A completion model that raises on ["trigger-error"]. *)
Definition stub_chain (input_text : string) : M nat string :=
  fun w =>
    if String.eqb input_text "trigger-error"
    then (Raise (ServiceError "model failure"), S w)
    else (Ok ("You said: " ++ input_text)%string, S w).

Fixpoint replicate (n : nat) (c : ascii) : string :=
  match n with
  | 0 => EmptyString
  | S n' => String c (replicate n' c)
  end.

(** A business description of 5000 characters and its filing. *)
Definition description_5000 : string := replicate 5000 "x"%char.

Definition acme_archive (file_name : string) : F10K :=
  {| item1 := description_5000; f10k_companyName := "Acme";
     f10k_cusip := "C1" |}.

Definition acme_company : Company :=
  {| c_id := 0; c_cusip := "C1"; c_companyName := "Acme" |}.

Definition acme_graph : Graph (list Z) :=
  {| companies := [acme_company]; documents := []; has := [];
     next_id := 1 |}.

(** A short text, cut into 8 windows and so into 3 batches, and its
    filing. *)
Definition fox_text : string := "the quick brown fox jumps".

Definition fox_split : string -> list string := window_split 4 1.

Definition fox_archive (file_name : string) : F10K :=
  {| item1 := fox_text; f10k_companyName := "Acme"; f10k_cusip := "C1" |}.

(** A model that forgets the last text of a batch. *)
Definition short_model (d : list string) : M nat (list (list Z)) :=
  fun w => (Ok (map (fun t => [Z.of_nat (String.length t)]) (removelast d)),
            S w).

(** Two filings with different company names. *)
Definition two_archive (file_name : string) : F10K :=
  if String.eqb file_name "a.txt"
  then {| item1 := "0123456789abcdefghijklmnopqrstuvwxyz";
          f10k_companyName := "Acme"; f10k_cusip := "C1" |}
  else {| item1 := "x"; f10k_companyName := "Acme1"; f10k_cusip := "C2" |}.

(** Entries for a store that knows Acme only. *)
Definition acme_entry (n : Z) (t : string) : Entry (list Z) :=
  {| companyName := "Acme"; cusip := "C1"; seqId := n;
     contextId := "Acme" ++ str n;
     textEmbedding := [Z.of_nat (String.length t)]; text := t |}.

Definition stray_entry : Entry (list Z) :=
  {| companyName := "Nowhere Inc"; cusip := "C9"; seqId := 0;
     contextId := "Nowhere Inc0"; textEmbedding := [7%Z];
     text := "not in the graph" |}.

(** A store that has Acme and one document loaded before. *)
Definition old_document : Document (list Z) :=
  {| d_id := 1; documentId := "Old0"; documentType := Some "FORM_10K_ITEM1";
     d_seqId := Some 0%Z; d_textEmbedding := Some [3%Z];
     d_text := Some "old" |}.

Definition stocked_graph : Graph (list Z) :=
  {| companies := [acme_company]; documents := [old_document];
     has := [(0, 1)]; next_id := 2 |}.

(** A splitter that prefers paragraph boundaries: it cuts the text at
    blank lines and fills a chunk with the paragraphs that fit in [size]
    characters; a last paragraph of at most [overlap] characters is
    repeated at the head of the next chunk. *)
Definition newline : ascii := "010"%char.

Fixpoint paragraphs_from (s cur : string) : list string :=
  match s with
  | EmptyString => [cur]
  | String c1 rest =>
      match rest with
      | String c2 rest' =>
          if Ascii.eqb c1 newline && Ascii.eqb c2 newline
          then cur :: paragraphs_from rest' EmptyString
          else paragraphs_from rest (cur ++ String c1 EmptyString)
      | EmptyString => [(cur ++ String c1 EmptyString)%string]
      end
  end.

Definition join_paragraphs (ps : list string) : string :=
  String.concat (String newline (String newline EmptyString)) ps.

Definition carried (overlap : nat) (cur : list string) : list string :=
  match rev cur with
  | p :: _ => if Nat.leb (String.length p) overlap then [p] else []
  | [] => []
  end.

Fixpoint pack_paragraphs (size overlap : nat) (ps cur : list string)
    : list string :=
  match ps with
  | [] => match cur with [] => [] | _ => [join_paragraphs cur] end
  | p :: ps' =>
      match cur with
      | [] => pack_paragraphs size overlap ps' [p]
      | _ =>
          if Nat.leb (String.length (join_paragraphs (cur ++ [p]))) size
          then pack_paragraphs size overlap ps' (cur ++ [p])
          else join_paragraphs cur
               :: pack_paragraphs size overlap ps' (carried overlap cur ++ [p])
      end
  end.

Definition paragraph_split (size overlap : nat) (s : string) : list string :=
  pack_paragraphs size overlap
    (filter (fun p => negb (Nat.eqb (String.length p) 0))
       (paragraphs_from s EmptyString))
    [].

(** A business description of 5000 characters in four paragraphs, and its
    filing. *)
Definition blank_line : string := String newline (String newline EmptyString).

Definition paragraphs_5000 : string :=
  (replicate 1248 "a"%char ++ blank_line ++ replicate 1248 "b"%char
   ++ blank_line ++ replicate 1248 "c"%char ++ blank_line
   ++ replicate 1250 "d"%char)%string.

Definition paragraphs_archive (file_name : string) : F10K :=
  {| item1 := paragraphs_5000; f10k_companyName := "Acme";
     f10k_cusip := "C1" |}.

(** Two filings of two companies, and two filings with the same company
    name of which the second has an empty text. *)
Definition acme_beta_archive (file_name : string) : F10K :=
  if String.eqb file_name "a.txt"
  then {| item1 := "0123456789"; f10k_companyName := "Acme";
          f10k_cusip := "C1" |}
  else {| item1 := "xyz"; f10k_companyName := "Beta"; f10k_cusip := "C2" |}.

Definition acme_twice_archive (file_name : string) : F10K :=
  if String.eqb file_name "a.txt"
  then {| item1 := "0123456789"; f10k_companyName := "Acme";
          f10k_cusip := "C1" |}
  else {| item1 := ""; f10k_companyName := "Acme"; f10k_cusip := "C1" |}.

(** * Properties *)

(** ** Examples *)

Example chunks_7_by_3 :
  chunks [1; 2; 3; 4; 5; 6; 7] 3 = [[1; 2; 3]; [4; 5; 6]; [7]].
Proof. reflexivity. Qed.

Example chunks_nonpositive_n : chunks [1; 2; 3] (-4) = [[1]; [2]; [3]].
Proof. reflexivity. Qed.

Example str_examples : str 0 = "0" /\ str 12 = "12" /\ str (-1) = "-1".
Proof. repeat split. Qed.

Example contains_examples :
  contains ".txt" "0001830197-22-000038.txt" = true /\
  contains ".txt" "README" = false.
Proof. split; reflexivity. Qed.

Example window_split_5000 :
  map String.length (window_split 2000 15 description_5000)
  = [2000; 2000; 1030].
Proof. vm_compute. reflexivity. Qed.

Example window_split_empty : window_split 2000 15 "" = [].
Proof. reflexivity. Qed.

(** ** The chunking utility *)

Section ChunksFacts.

Context {A : Type}.

Lemma range_0_cons (len step : nat) :
  0 < step -> 0 < len ->
  range 0 len step = 0 :: map (fun i => i + step) (range 0 (len - step) step).
Proof.
  intros Hs Hl. unfold range.
  assert (E : (len - 0 + step - 1) / step
              = S ((len - step - 0 + step - 1) / step)).
  { destruct (Nat.le_gt_cases len step) as [Hle | Hgt].
    - replace (len - step - 0 + step - 1) with (step - 1) by lia.
      rewrite (Nat.div_small (step - 1)) by lia.
      symmetry. apply (Nat.div_unique _ _ 1 (len - 1)); lia.
    - replace (len - 0 + step - 1)
        with ((len - step - 0 + step - 1) + 1 * step) by lia.
      rewrite Nat.div_add by lia. lia. }
  rewrite E. cbn [seq map]. f_equal.
  rewrite <- seq_shift, !map_map. apply map_ext. intros k. lia.
Qed.

Lemma range_0_nil (step : nat) : range 0 0 step = [].
Proof.
  unfold range. destruct step as [| s]; [reflexivity |].
  replace (0 - 0 + S s - 1) with s by lia.
  rewrite Nat.div_small by lia. reflexivity.
Qed.

Lemma range_unit (n : nat) : range 0 n 1 = seq 0 n.
Proof.
  unfold range. replace ((n - 0 + 1 - 1) / 1) with n
    by (rewrite Nat.div_1_r; lia).
  rewrite <- (map_id (seq 0 n)) at 2. apply map_ext. intros k. lia.
Qed.

Lemma step_of_pos (n : Z) : 0 < step_of n.
Proof. unfold step_of. lia. Qed.

Lemma chunks_nil (n : Z) : chunks (@nil A) n = [].
Proof. unfold chunks. cbn [List.length]. rewrite range_0_nil. reflexivity. Qed.

(** [chunks] peels one batch off the front. *)
Lemma chunks_cons (xs : list A) (n : Z) :
  xs <> [] ->
  chunks xs n
  = firstn (step_of n) xs :: chunks (skipn (step_of n) xs) n.
Proof.
  intros Hne. unfold chunks. fold (step_of n).
  pose proof (step_of_pos n) as Hpos.
  rewrite range_0_cons; [| lia | destruct xs; [congruence | cbn; lia]].
  cbn [map]. f_equal.
  - unfold slice. cbn [skipn]. f_equal. lia.
  - rewrite length_skipn, map_map. apply map_ext. intros i.
    unfold slice. rewrite skipn_skipn. f_equal. lia.
Qed.

(** Induction along the batches. *)
Lemma chunks_ind (n : Z) (P : list A -> list (list A) -> Prop) :
  P [] [] ->
  (forall xs, xs <> [] ->
     P (skipn (step_of n) xs) (chunks (skipn (step_of n) xs) n) ->
     P xs (firstn (step_of n) xs :: chunks (skipn (step_of n) xs) n)) ->
  forall xs, P xs (chunks xs n).
Proof.
  intros Hnil Hcons xs.
  remember (List.length xs) as len eqn:Hlen.
  revert xs Hlen. induction len as [len IH] using lt_wf_ind. intros xs Hlen.
  destruct xs as [| x xs'].
  - rewrite chunks_nil. exact Hnil.
  - rewrite chunks_cons by discriminate. apply Hcons; [discriminate |].
    apply (IH (List.length (skipn (step_of n) (x :: xs')))); [| reflexivity].
    rewrite length_skipn. pose proof (step_of_pos n). cbn [List.length] in *.
    lia.
Qed.

Lemma concat_chunks (xs : list A) (n : Z) : concat (chunks xs n) = xs.
Proof.
  apply (chunks_ind n (fun xs bs => concat bs = xs)); [reflexivity |].
  intros ys _ IH. cbn [concat]. rewrite IH. apply firstn_skipn.
Qed.

Lemma chunks_bounds (xs : list A) (n : Z) :
  Forall (fun d => 1 <= List.length d <= step_of n) (chunks xs n).
Proof.
  apply (chunks_ind n (fun _ bs =>
           Forall (fun d => 1 <= List.length d <= step_of n) bs)).
  - constructor.
  - intros ys Hne IH. constructor; [| exact IH].
    rewrite length_firstn. pose proof (step_of_pos n).
    destruct ys; [congruence | cbn [List.length]; lia].
Qed.

(** Every batch but the last is full. *)
Lemma chunks_full (xs : list A) (n : Z) :
  forall i d, nth_error (chunks xs n) i = Some d ->
              S i < List.length (chunks xs n) ->
              List.length d = step_of n.
Proof.
  apply (chunks_ind n (fun _ bs =>
           forall i d, nth_error bs i = Some d -> S i < List.length bs ->
                       List.length d = step_of n)).
  - intros i d H. destruct i; discriminate.
  - intros ys Hne IH i d Hi Hlt. destruct i as [| i].
    + cbn in Hi. injection Hi as <-. rewrite length_firstn.
      cbn [List.length] in Hlt.
      destruct (skipn (step_of n) ys) eqn:E.
      * rewrite chunks_nil in Hlt. cbn in Hlt. lia.
      * assert (L : List.length (skipn (step_of n) ys) <> 0)
          by (rewrite E; discriminate).
        rewrite length_skipn in L. lia.
    + cbn in Hi. cbn [List.length] in Hlt. apply (IH i d Hi). lia.
Qed.

Lemma length_chunks (xs : list A) (n : Z) :
  List.length (chunks xs n) = ceil_div (List.length xs) (step_of n).
Proof.
  unfold chunks, range, ceil_div. fold (step_of n).
  rewrite length_map, length_map, length_seq.
  pose proof (step_of_pos n) as Hpos.
  set (b := step_of n) in *. set (len := List.length xs).
  pose proof (Nat.div_mod_eq len b) as Hdm.
  pose proof (Nat.mod_upper_bound len b ltac:(lia)) as Hub.
  destruct (Nat.eqb_spec (len mod b) 0) as [E | E].
  - symmetry. apply (Nat.div_unique _ _ _ (b - 1)); lia.
  - symmetry. apply (Nat.div_unique _ _ _ (len mod b - 1)); lia.
Qed.

End ChunksFacts.

(** ** The upsert query and the upsert loop *)

Section GraphFacts.

Context {vector : Type}.
Implicit Types (g : Graph vector) (record : Entry vector) (c : Company).

(** *** Document ids under [MERGE] *)

Lemma merge_id_incl (ids : list string) (id x : string) :
  In x ids -> In x (merge_id ids id).
Proof.
  unfold merge_id. destruct (existsb _ ids); [tauto |].
  intros H. apply in_or_app. now left.
Qed.

Lemma merge_id_in (ids : list string) (id : string) : In id (merge_id ids id).
Proof.
  unfold merge_id. destruct (existsb (String.eqb id) ids) eqn:E.
  - apply existsb_exists in E as (x & Hx & Heq).
    apply String.eqb_eq in Heq. now subst.
  - apply in_or_app. right. now left.
Qed.

Lemma merge_id_present (ids : list string) (id : string) :
  In id ids -> merge_id ids id = ids.
Proof.
  intros H. unfold merge_id.
  replace (existsb (String.eqb id) ids) with true; [reflexivity |].
  symmetry. apply existsb_exists. exists id. split; [exact H |].
  apply String.eqb_refl.
Qed.

Lemma merge_id_absent (ids : list string) (id : string) :
  ~ In id ids -> merge_id ids id = ids ++ [id].
Proof.
  intros H. unfold merge_id.
  destruct (existsb (String.eqb id) ids) eqn:E; [| reflexivity].
  apply existsb_exists in E as (x & Hx & Heq).
  apply String.eqb_eq in Heq. subst. contradiction.
Qed.

Lemma merge_id_NoDup (ids : list string) (id : string) :
  NoDup ids -> NoDup (merge_id ids id).
Proof.
  intros H. unfold merge_id.
  destruct (existsb (String.eqb id) ids) eqn:E; [exact H |].
  apply NoDup_app; [exact H | constructor; [intros [] | constructor] |].
  intros a Ha [<- | []].
  assert (existsb (String.eqb id) ids = true); [| congruence].
  apply existsb_exists. exists id. split; [exact Ha | apply String.eqb_refl].
Qed.

Lemma merge_ids_incl (xs ids : list string) (x : string) :
  In x ids -> In x (fold_left merge_id xs ids).
Proof.
  revert ids. induction xs as [| y xs IH]; intros ids H; [exact H |].
  cbn. apply IH, merge_id_incl, H.
Qed.

Lemma merge_ids_in (xs ids : list string) (x : string) :
  In x xs -> In x (fold_left merge_id xs ids).
Proof.
  revert ids. induction xs as [| y xs IH]; intros ids H; [destruct H |].
  cbn. destruct H as [-> | H].
  - apply merge_ids_incl, merge_id_in.
  - apply IH, H.
Qed.

Lemma merge_ids_present (xs ids : list string) :
  (forall x, In x xs -> In x ids) -> fold_left merge_id xs ids = ids.
Proof.
  revert ids. induction xs as [| y xs IH]; intros ids H; [reflexivity |].
  cbn. rewrite merge_id_present by (apply H; now left).
  apply IH. intros x Hx. apply H. now right.
Qed.

Lemma merge_ids_fresh (xs ids : list string) :
  NoDup xs -> (forall x, In x xs -> ~ In x ids) ->
  fold_left merge_id xs ids = ids ++ xs.
Proof.
  revert ids. induction xs as [| y xs IH]; intros ids Hnd H.
  - cbn. now rewrite app_nil_r.
  - cbn. inversion Hnd as [| ? ? Hy Hnd']; subst.
    rewrite merge_id_absent by (apply H; now left).
    rewrite IH; [now rewrite <- app_assoc | exact Hnd' |].
    intros x Hx Hin. apply in_app_or in Hin as [Hin | [<- | []]].
    + apply (H x); [now right | exact Hin].
    + contradiction.
Qed.

Lemma merge_ids_NoDup (xs ids : list string) :
  NoDup ids -> NoDup (fold_left merge_id xs ids).
Proof.
  revert ids. induction xs as [| y xs IH]; intros ids H; [exact H |].
  cbn. apply IH, merge_id_NoDup, H.
Qed.

Lemma merge_ids_repeat {B : Type} (cs : list B) (ids : list string)
    (id : string) :
  cs <> [] -> fold_left merge_id (map (fun _ => id) cs) ids = merge_id ids id.
Proof.
  intros Hne. destruct cs as [| c cs]; [congruence |]. cbn.
  apply merge_ids_present. intros x Hx. apply in_map_iff in Hx as (_ & <- & _).
  apply merge_id_in.
Qed.

(** *** The clauses of the query *)

Lemma document_ids_keys g : document_ids g = map snd (document_keys g).
Proof.
  unfold document_ids, document_keys. rewrite map_map. reflexivity.
Qed.

Lemma merge_document_ids g (id : string) :
  document_ids (fst (merge_document g id)) = merge_id (document_ids g) id.
Proof.
  unfold merge_document.
  destruct (filter _ (documents g)) as [| b found] eqn:E.
  - cbn. unfold document_ids at 1. cbn. rewrite map_app. cbn.
    rewrite merge_id_absent; [reflexivity |].
    intros Hin. apply in_map_iff in Hin as (b & Hb & Hin).
    assert (In b []) as []. rewrite <- E. apply filter_In.
    split; [exact Hin | now apply String.eqb_eq].
  - cbn. rewrite merge_id_present; [reflexivity |].
    assert (Hb : In b (filter (fun b => String.eqb (documentId b) id)
                         (documents g))) by (rewrite E; now left).
    apply filter_In in Hb as [Hin Heq]. apply String.eqb_eq in Heq.
    apply in_map_iff. now exists b.
Qed.

Lemma merge_document_frame g (id : string) :
  companies (fst (merge_document g id)) = companies g /\
  has (fst (merge_document g id)) = has g /\
  incl (document_keys g) (document_keys (fst (merge_document g id))).
Proof.
  unfold merge_document.
  destruct (filter _ (documents g)) as [| b found]; cbn.
  - repeat split. unfold document_keys. cbn. rewrite map_app.
    apply incl_appl, incl_refl.
  - repeat split. apply incl_refl.
Qed.

(** [MERGE] binds [b] to at least one node, and only to documents with the
    id. *)
Lemma merge_document_bound g (id : string) :
  snd (merge_document g id) <> [] /\
  forall b, In b (snd (merge_document g id)) ->
            In (b, id) (document_keys (fst (merge_document g id))).
Proof.
  unfold merge_document.
  destruct (filter _ (documents g)) as [| d found] eqn:E; cbn.
  - split; [discriminate |]. intros b [<- | []].
    unfold document_keys. cbn. rewrite map_app. apply in_or_app. right.
    now left.
  - split; [discriminate |]. intros b Hb.
    assert (Hin : In b (map d_id (d :: found))) by exact Hb.
    rewrite <- E in Hin. apply in_map_iff in Hin as (x & <- & Hx).
    apply filter_In in Hx as [Hx Heq]. apply String.eqb_eq in Heq.
    unfold document_keys. apply in_map_iff. exists x. split; [| exact Hx].
    now rewrite Heq.
Qed.

Lemma set_properties_frame g (b : nat) record :
  companies (set_properties g b record) = companies g /\
  has (set_properties g b record) = has g /\
  document_keys (set_properties g b record) = document_keys g.
Proof.
  repeat split. unfold document_keys, set_properties. cbn.
  rewrite map_map. apply map_ext. intros d.
  destruct (Nat.eqb (d_id d) b); reflexivity.
Qed.

Lemma merge_has_frame g c (b : nat) :
  companies (merge_has g c b) = companies g /\
  documents (merge_has g c b) = documents g /\
  incl (has g) (has (merge_has g c b)) /\
  In (c_id c, b) (has (merge_has g c b)).
Proof.
  unfold merge_has. destruct (existsb _ (has g)) eqn:E; cbn.
  - repeat split; [apply incl_refl |].
    apply existsb_exists in E as ([x y] & Hin & Heq). cbn in Heq.
    apply andb_true_iff in Heq as [H1 H2].
    apply Nat.eqb_eq in H1, H2. now subst.
  - repeat split; [apply incl_appl, incl_refl |].
    apply in_or_app. right. now left.
Qed.

(** [SET] and the relationship [MERGE] on the nodes bound to [b]. *)
Lemma bound_nodes_frame record c (bs : list nat) g :
  let g' := fold_left
              (fun g b => merge_has (set_properties g b record) c b) bs g in
  companies g' = companies g /\
  document_keys g' = document_keys g /\
  incl (has g) (has g') /\
  forall b, In b bs -> In (c_id c, b) (has g').
Proof.
  revert g. induction bs as [| b bs IH]; intros g; cbn.
  - repeat split; [apply incl_refl | intros b []].
  - specialize (IH (merge_has (set_properties g b record) c b)).
    cbn in IH. destruct IH as (Hc & Hk & Hh & Hb).
    destruct (merge_has_frame (set_properties g b record) c b)
      as (Mc & Md & Mh & Mb).
    destruct (set_properties_frame g b record) as (Sc & Sh & Sk).
    repeat split.
    + now rewrite Hc, Mc, Sc.
    + rewrite Hk. unfold document_keys at 1. rewrite Md. exact Sk.
    + intros x Hx. apply Hh, Mh. now rewrite Sh.
    + intros x [<- | Hx]; [apply Hh, Mb | apply Hb, Hx].
Qed.

(** *** One row *)

Lemma upsert_row_companies g (row : Entry vector * Company) :
  companies (upsert_row_graph g row) = companies g.
Proof.
  unfold upsert_row_graph, upsert_row. destruct row as [record c].
  destruct (merge_document g (contextId record)) as [g1 bs] eqn:E. cbn.
  destruct (bound_nodes_frame record c bs g1) as (Hc & _). rewrite Hc.
  pose proof (merge_document_frame g (contextId record)) as (Mc & _).
  now rewrite E in Mc.
Qed.

Lemma upsert_row_document_ids g (row : Entry vector * Company) :
  document_ids (upsert_row_graph g row)
  = merge_id (document_ids g) (contextId (fst row)).
Proof.
  unfold upsert_row_graph, upsert_row. destruct row as [record c].
  destruct (merge_document g (contextId record)) as [g1 bs] eqn:E. cbn.
  destruct (bound_nodes_frame record c bs g1) as (_ & Hk & _).
  rewrite document_ids_keys, Hk, <- document_ids_keys.
  pose proof (merge_document_ids g (contextId record)) as H.
  now rewrite E in H.
Qed.

Lemma upsert_row_extends g (row : Entry vector * Company) :
  incl (document_keys g) (document_keys (upsert_row_graph g row)) /\
  incl (has g) (has (upsert_row_graph g row)).
Proof.
  unfold upsert_row_graph, upsert_row. destruct row as [record c].
  destruct (merge_document g (contextId record)) as [g1 bs] eqn:E. cbn.
  destruct (bound_nodes_frame record c bs g1) as (_ & Hk & Hh & _).
  pose proof (merge_document_frame g (contextId record)) as (_ & Mh & Mk).
  rewrite E in Mh, Mk. cbn in Mh, Mk. split.
  - now rewrite Hk.
  - now rewrite <- Mh.
Qed.

Lemma linked_keys g c (id : string) :
  linked g c id <->
  exists b, In (b, id) (document_keys g) /\ In (c_id c, b) (has g).
Proof.
  unfold linked, document_keys. split.
  - intros (d & Hd & <- & Hh). exists (d_id d). split; [| exact Hh].
    apply in_map_iff. now exists d.
  - intros (b & Hk & Hh). apply in_map_iff in Hk as (d & Heq & Hd).
    injection Heq as <- <-. now exists d.
Qed.

Lemma upsert_row_linked g record c :
  linked (upsert_row_graph g (record, c)) c (contextId record).
Proof.
  apply linked_keys. unfold upsert_row_graph, upsert_row.
  destruct (merge_document g (contextId record)) as [g1 bs] eqn:E. cbn.
  destruct (bound_nodes_frame record c bs g1) as (_ & Hk & _ & Hb).
  pose proof (merge_document_bound g (contextId record)) as (Hne & Hin).
  rewrite E in Hne, Hin. cbn in Hne, Hin.
  destruct bs as [| b bs]; [congruence |].
  exists b. split.
  - rewrite Hk. apply Hin. now left.
  - apply Hb. now left.
Qed.
(** *** The rows of a query and the batches of the loop *)

Lemma upsert_rows_graph (rows : list (Entry vector * Company))
    (st : Graph vector * nat) :
  fst (upsert_rows rows st) = fold_left upsert_row_graph rows (fst st).
Proof.
  revert st. induction rows as [| row rows IH]; intros st; [reflexivity |].
  unfold upsert_rows in *. cbn [fold_left]. rewrite IH. f_equal.
  unfold upsert_row_graph. destruct (upsert_row (fst st) row). reflexivity.
Qed.

Lemma rows_companies (rows : list (Entry vector * Company)) g :
  companies (fold_left upsert_row_graph rows g) = companies g.
Proof.
  revert g. induction rows as [| row rows IH]; intros g; [reflexivity |].
  cbn. rewrite IH. apply upsert_row_companies.
Qed.

Lemma rows_document_ids (rows : list (Entry vector * Company)) g :
  document_ids (fold_left upsert_row_graph rows g)
  = fold_left merge_id (map (fun row => contextId (fst row)) rows)
      (document_ids g).
Proof.
  revert g. induction rows as [| row rows IH]; intros g; [reflexivity |].
  cbn. rewrite IH, upsert_row_document_ids. reflexivity.
Qed.

Lemma rows_extends (rows : list (Entry vector * Company)) g :
  incl (document_keys g) (document_keys (fold_left upsert_row_graph rows g)) /\
  incl (has g) (has (fold_left upsert_row_graph rows g)).
Proof.
  revert g. induction rows as [| row rows IH]; intros g.
  - split; apply incl_refl.
  - cbn. destruct (IH (upsert_row_graph g row)) as [Hk Hh].
    destruct (upsert_row_extends g row) as [Rk Rh].
    split; eapply incl_tran; eassumption.
Qed.

Lemma rows_linked (rows : list (Entry vector * Company)) g record c :
  In (record, c) rows ->
  linked (fold_left upsert_row_graph rows g) c (contextId record).
Proof.
  revert g. induction rows as [| row rows IH]; intros g Hin; [destruct Hin |].
  cbn. destruct Hin as [-> | Hin]; [| apply IH, Hin].
  pose proof (upsert_row_linked g record c) as Hl.
  apply linked_keys in Hl as (b & Hk & Hh). apply linked_keys. exists b.
  destruct (rows_extends rows (upsert_row_graph g (record, c))) as [Ek Eh].
  split; [apply Ek, Hk | apply Eh, Hh].
Qed.

Lemma match_rows_app g (rs1 rs2 : list (Entry vector)) :
  match_rows g (rs1 ++ rs2) = match_rows g rs1 ++ match_rows g rs2.
Proof. apply flat_map_app. Qed.

Lemma match_rows_companies g g' (rs : list (Entry vector)) :
  companies g' = companies g -> match_rows g' rs = match_rows g rs.
Proof.
  intros H. unfold match_rows, match_company. now rewrite H.
Qed.

Lemma match_company_nil g record :
  match_company g record = [] <-> matched g record = false.
Proof.
  unfold match_company, matched.
  induction (companies g) as [| c cs IH]; cbn; [tauto |].
  destruct (String.eqb (c_cusip c) (cusip record)); cbn; [| exact IH].
  split; discriminate.
Qed.

Lemma match_rows_unmatched g record :
  matched g record = false -> match_rows g [record] = [].
Proof.
  intros H. apply match_company_nil in H. unfold match_rows. cbn.
  now rewrite H.
Qed.

Lemma match_rows_in g (rs : list (Entry vector)) record c :
  In record rs -> In c (companies g) -> c_cusip c = cusip record ->
  In (record, c) (match_rows g rs).
Proof.
  intros Hr Hc Heq. unfold match_rows. apply in_flat_map. exists record.
  split; [exact Hr |]. apply in_map. unfold match_company.
  apply filter_In. split; [exact Hc | now apply String.eqb_eq].
Qed.

(** The ids the rows of a query merge are those of its matched records. *)
Lemma match_rows_ids g (rs : list (Entry vector)) (ids : list string) :
  fold_left merge_id
    (map (fun row => contextId (fst row)) (match_rows g rs)) ids
  = fold_left merge_id (map contextId (filter (matched g) rs)) ids.
Proof.
  revert ids. induction rs as [| r rs IH]; intros ids; [reflexivity |].
  change (match_rows g (r :: rs))
    with (map (pair r) (match_company g r) ++ match_rows g rs).
  rewrite map_app, fold_left_app, map_map. cbn [fst filter].
  destruct (matched g r) eqn:E.
  - cbn [map fold_left]. rewrite merge_ids_repeat, IH; [reflexivity |].
    intros Hnil. apply match_company_nil in Hnil. congruence.
  - apply match_company_nil in E. rewrite E. cbn. apply IH.
Qed.

Lemma upsert_batches_trips (batches : list (list (Entry vector)))
    (st : Loader vector) :
  round_trips (upsert_batches batches st) = round_trips st ++ batches.
Proof.
  revert st. induction batches as [| d batches IH]; intros st; cbn.
  - now rewrite app_nil_r.
  - unfold upsert_batches in IH. rewrite IH. cbn. now rewrite <- app_assoc.
Qed.

Lemma upsert_batches_count (batches : list (list (Entry vector)))
    (st : Loader vector) :
  count (upsert_batches batches st)
  = (count st + Z.of_nat (List.length (concat batches)))%Z.
Proof.
  revert st. induction batches as [| d batches IH]; intros st; cbn.
  - lia.
  - unfold upsert_batches in IH. rewrite IH. cbn. rewrite length_app. lia.
Qed.

(** The batches do not show in the graph: the loop runs the clauses on the
    rows of all its records, in order. *)
Lemma upsert_batches_graph (batches : list (list (Entry vector)))
    (st : Loader vector) :
  graph (upsert_batches batches st)
  = fold_left upsert_row_graph (match_rows (graph st) (concat batches))
      (graph st).
Proof.
  revert st. induction batches as [| d batches IH]; intros st;
    [reflexivity |].
  unfold upsert_batches in *. cbn [fold_left concat].
  rewrite IH. cbn [graph]. unfold run_upsert_query.
  rewrite upsert_rows_graph. cbn [fst].
  rewrite match_rows_app, fold_left_app. f_equal.
  apply match_rows_companies, rows_companies.
Qed.

Lemma upsert_loop_graph (emb_entries : list (Entry vector)) g :
  graph (upsert_loop emb_entries g)
  = fold_left upsert_row_graph (match_rows g emb_entries) g.
Proof.
  unfold upsert_loop. rewrite upsert_batches_graph. cbn [graph].
  now rewrite concat_chunks.
Qed.

Lemma upsert_loop_document_ids (emb_entries : list (Entry vector)) g :
  document_ids (graph (upsert_loop emb_entries g))
  = fold_left merge_id (map contextId (filter (matched g) emb_entries))
      (document_ids g).
Proof.
  rewrite upsert_loop_graph, rows_document_ids. apply match_rows_ids.
Qed.

Lemma upsert_loop_companies (emb_entries : list (Entry vector)) g :
  companies (graph (upsert_loop emb_entries g)) = companies g.
Proof. rewrite upsert_loop_graph. apply rows_companies. Qed.

End GraphFacts.

(** ** The upsert loop: batching, idempotence, unmatched records *)

Section LoopClaims.

Context {vector : Type}.
Implicit Types (g : Graph vector) (record : Entry vector).

Lemma merge_ids_created (xs ids : list string) :
  exists created,
    fold_left merge_id xs ids = ids ++ created /\
    NoDup created /\
    Forall (fun id => existsb (String.eqb id) ids = false) created.
Proof.
  revert ids. induction xs as [| y xs IH]; intros ids.
  - exists []. cbn. rewrite app_nil_r. repeat constructor.
  - cbn. destruct (IH (merge_id ids y)) as (cr & Heq & Hnd & Hall).
    unfold merge_id in *. destruct (existsb (String.eqb y) ids) eqn:E.
    + exists cr. auto.
    + exists (y :: cr). rewrite Heq, <- app_assoc. cbn.
      split; [reflexivity |].
      assert (Hcr : forall x, In x cr ->
                existsb (String.eqb x) ids = false /\ x <> y).
      { intros x Hx. rewrite Forall_forall in Hall.
        specialize (Hall x Hx). rewrite existsb_app in Hall.
        apply orb_false_iff in Hall as [H1 H2]. split; [exact H1 |].
        cbn in H2. rewrite orb_false_r in H2.
        now apply String.eqb_neq in H2. }
      split.
      * constructor; [| exact Hnd]. intros Hin.
        now destruct (Hcr y Hin) as [_ Hne].
      * constructor; [exact E |]. apply Forall_forall. intros x Hx.
        apply (Hcr x Hx).
Qed.

(** C4. For N embedding records the upsert loop makes ceil(N / 100) round
    trips to the store.  Each carries one batch of at least one and at most
    100 records, every batch before the last carries exactly 100, and the
    batches, in the order they are sent, concatenate to the input
    sequence. *)
Theorem upsert_loop_round_trips (emb_entries : list (Entry vector)) g :
  let trips := round_trips (upsert_loop emb_entries g) in
  List.length trips = ceil_div (List.length emb_entries) 100 /\
  Forall (fun d => 1 <= List.length d <= 100) trips /\
  Forall (fun d => List.length d = 100) (removelast trips) /\
  concat trips = emb_entries.
Proof.
  cbv zeta. unfold upsert_loop. rewrite upsert_batches_trips. cbn [round_trips app].
  split; [apply (length_chunks emb_entries upsert_batch_size) |].
  split; [apply (chunks_bounds emb_entries upsert_batch_size) |].
  split; [| apply concat_chunks].
  apply Forall_forall. intros d Hd.
  apply In_nth_error in Hd as [i Hi].
  assert (Hlt : i < List.length (removelast (chunks emb_entries upsert_batch_size)))
    by (apply nth_error_Some; congruence).
  set (bs := chunks emb_entries upsert_batch_size) in *.
  assert (Hbs : bs <> []) by (intros E; rewrite E in Hlt; cbn in Hlt; lia).
  pose proof (app_removelast_last [] Hbs) as Happ.
  assert (Hlen : List.length bs = S (List.length (removelast bs))).
  { rewrite Happ at 1. rewrite length_app. cbn. lia. }
  apply (chunks_full emb_entries upsert_batch_size i d); fold bs; [| lia].
  rewrite Happ. rewrite nth_error_app1 by exact Hlt. exact Hi.
Qed.

(** C2. Running the upsert loop a second time on the same records creates
    no Document node: the graph after the second run has as many Document
    nodes as after the first, with the same document ids in the same
    order.  The first run itself only adds documents whose id the store did
    not have, each once. *)
Theorem upsert_loop_idempotent (emb_entries : list (Entry vector)) g :
  let g1 := graph (upsert_loop emb_entries g) in
  let g2 := graph (upsert_loop emb_entries g1) in
  document_count g2 = document_count g1 /\
  document_ids g2 = document_ids g1 /\
  exists created,
    document_ids g1 = document_ids g ++ created /\
    NoDup created /\
    Forall (fun id => existsb (String.eqb id) (document_ids g) = false)
      created.
Proof.
  cbv zeta.
  assert (Hids : document_ids
                   (graph (upsert_loop emb_entries
                             (graph (upsert_loop emb_entries g))))
                 = document_ids (graph (upsert_loop emb_entries g))).
  { rewrite (upsert_loop_document_ids emb_entries
               (graph (upsert_loop emb_entries g))).
    assert (Hm : filter (matched (graph (upsert_loop emb_entries g)))
                   emb_entries
                 = filter (matched g) emb_entries).
    { apply filter_ext. intros r. unfold matched.
      now rewrite upsert_loop_companies. }
    rewrite Hm. apply merge_ids_present. intros x Hx.
    rewrite upsert_loop_document_ids. now apply merge_ids_in. }
  split; [| split; [exact Hids |]].
  - unfold document_count.
    rewrite <- (length_map documentId), <- (length_map documentId
      (documents (graph (upsert_loop emb_entries g)))).
    fold (document_ids (graph (upsert_loop emb_entries g))).
    rewrite <- Hids. reflexivity.
  - rewrite upsert_loop_document_ids. apply merge_ids_created.
Qed.

(** C10. A record whose cusip is the cusip of no Company node of the store
    is dropped without an error: a query with that record alone returns the
    graph as it was and a count of zero; in a batch, and in the whole loop,
    the graph is the one obtained without the record. *)
Theorem unmatched_record_dropped g record
    (pre post : list (Entry vector)) :
  (forall c, In c (companies g) -> c_cusip c <> cusip record) ->
  run_upsert_query [record] g = (g, 0) /\
  run_upsert_query (pre ++ record :: post) g
  = run_upsert_query (pre ++ post) g /\
  graph (upsert_loop (pre ++ record :: post) g)
  = graph (upsert_loop (pre ++ post) g).
Proof.
  intros Hno.
  assert (Hm : matched g record = false).
  { unfold matched. destruct (existsb _ (companies g)) eqn:E; [| reflexivity].
    apply existsb_exists in E as (c & Hc & Heq).
    apply String.eqb_eq in Heq. now destruct (Hno c Hc). }
  assert (Hrows : match_rows g (pre ++ record :: post)
                  = match_rows g (pre ++ post)).
  { change (record :: post) with ([record] ++ post).
    rewrite !match_rows_app, (match_rows_unmatched g record Hm).
    reflexivity. }
  repeat split.
  - unfold run_upsert_query. now rewrite (match_rows_unmatched g record Hm).
  - unfold run_upsert_query. now rewrite Hrows.
  - rewrite !upsert_loop_graph. now rewrite Hrows.
Qed.

End LoopClaims.

(** ** The embedder *)

Section EmbedderFacts.

Context {W vector : Type}.
Variable get_embeddings : list string -> M W (list vector).
Variable sleep : W -> W.

Abbreviation embed_batches_ := (embed_batches get_embeddings sleep).
Abbreviation transcript_ := (transcript get_embeddings sleep).

(** *** The inner loop *)

Lemma skipn_nth_error {A : Type} (l : list A) (k : nat) (x : A) :
  nth_error l k = Some x -> skipn k l = x :: skipn (S k) l.
Proof.
  revert l. induction k as [| k IH]; intros [| y l] H; try discriminate.
  - cbn in H. now injection H as ->.
  - cbn in H. cbn [skipn]. rewrite (IH l H). reflexivity.
Qed.

Lemma append_entries_seq (company_name cusip : string) (vs : list vector)
    (d : list string) (n : nat) :
  forall (k : nat) (st : Z * list (Entry vector)),
    k + n = List.length d -> List.length d <= List.length vs ->
    append_entries company_name cusip vs d (seq k n) st
    = Ok ((fst st + Z.of_nat n)%Z,
          snd st ++ zip_entries company_name cusip (fst st)
                      (skipn k d) (skipn k vs)).
Proof.
  induction n as [| n IH]; intros k st Hk Hlen.
  - cbn [seq append_entries]. rewrite skipn_all2 by lia. cbn.
    rewrite app_nil_r, Z.add_0_r. now destruct st.
  - cbn [seq append_entries]. unfold entry, index.
    destruct (nth_error vs k) as [v |] eqn:Ev;
      [| apply nth_error_None in Ev; lia].
    destruct (nth_error d k) as [t |] eqn:Et;
      [| apply nth_error_None in Et; lia].
    rewrite IH by lia. cbn [fst snd].
    rewrite (skipn_nth_error d k t Et), (skipn_nth_error vs k v Ev).
    cbn [zip_entries]. rewrite <- app_assoc. cbn [app].
    f_equal. f_equal. lia.
Qed.

Lemma append_entries_ok (company_name cusip : string) (vs : list vector)
    (d : list string) (st : Z * list (Entry vector)) :
  List.length d <= List.length vs ->
  append_entries company_name cusip vs d (range 0 (List.length d) 1) st
  = Ok ((fst st + Z.of_nat (List.length d))%Z,
        snd st ++ zip_entries company_name cusip (fst st) d vs).
Proof.
  intros H. rewrite range_unit.
  now rewrite (append_entries_seq company_name cusip vs d (List.length d) 0).
Qed.

(** The inner loop returns only if every index it visits has a vector. *)
Lemma append_entries_indices (company_name cusip : string)
    (vs : list vector) (d : list string) (is_ : list nat) :
  forall st st',
    append_entries company_name cusip vs d is_ st = Ok st' ->
    forall i, In i is_ -> i < List.length vs.
Proof.
  induction is_ as [| j is_ IH]; intros st st' H i Hi; [destruct Hi |].
  cbn [append_entries] in H. unfold entry, index in H.
  destruct (nth_error vs j) as [v |] eqn:Ev; [| discriminate].
  destruct (nth_error d j) as [t |]; [| discriminate].
  destruct Hi as [<- | Hi].
  - apply nth_error_Some. congruence.
  - eapply IH; eassumption.
Qed.

Lemma append_entries_enough (company_name cusip : string)
    (vs : list vector) (d : list string) st st' :
  append_entries company_name cusip vs d (range 0 (List.length d) 1) st
  = Ok st' ->
  List.length d <= List.length vs.
Proof.
  intros H. rewrite range_unit in H.
  destruct (Nat.le_gt_cases (List.length d) (List.length vs)) as [L | L];
    [exact L |].
  pose proof (append_entries_indices _ _ _ _ _ _ _ H (List.length vs)) as Hi.
  assert (List.length vs < List.length vs); [| lia].
  apply Hi, in_seq. lia.
Qed.

(** With too few vectors the inner loop raises [IndexError]. *)
Lemma append_entries_raises (company_name cusip : string)
    (vs : list vector) (d : list string) (is_ : list nat) :
  forall st e,
    append_entries company_name cusip vs d is_ st = Raise e ->
    e = IndexError.
Proof.
  induction is_ as [| j is_ IH]; intros st e H; [discriminate |].
  cbn [append_entries] in H. unfold entry, index in H.
  destruct (nth_error vs j) as [v |]; [| congruence].
  destruct (nth_error d j) as [t |]; [| congruence].
  eapply IH; eassumption.
Qed.

(** *** The outer loop *)

Lemma embed_batches_cons (company_name cusip : string) (d : list string)
    (rest : list (list string)) (st : Z * list (Entry vector)) (w : W) :
  embed_batches_ company_name cusip (d :: rest) st w
  = match get_embeddings d w with
    | (Raise e, w1) => (Raise e, w1)
    | (Ok vs, w1) =>
        match append_entries company_name cusip vs d
                (range 0 (List.length d) 1) st with
        | Raise e => (Raise e, sleep w1)
        | Ok st' => embed_batches_ company_name cusip rest st' (sleep w1)
        end
    end.
Proof.
  cbn [embed_batches]. unfold bind, tick, lift.
  destruct (get_embeddings d w) as [[vs | e] w1]; [| reflexivity].
  destruct (append_entries _ _ _ _ _ _); reflexivity.
Qed.

Lemma transcript_cons (d : list string) (rest : list (list string)) (w : W) :
  transcript_ (d :: rest) w
  = match get_embeddings d w with
    | (Raise e, w1) => (Raise e, w1)
    | (Ok vs, w1) =>
        match transcript_ rest (sleep w1) with
        | (Raise e, w2) => (Raise e, w2)
        | (Ok vss, w2) => (Ok (vs :: vss), w2)
        end
    end.
Proof.
  cbn [transcript]. unfold bind, tick, ret.
  destruct (get_embeddings d w) as [[vs | e] w1]; reflexivity.
Qed.

Lemma embed_batches_app (company_name cusip : string)
    (pre post : list (list string)) :
  forall (st : Z * list (Entry vector)) (w : W),
    embed_batches_ company_name cusip (pre ++ post) st w
    = match embed_batches_ company_name cusip pre st w with
      | (Ok st', w1) => embed_batches_ company_name cusip post st' w1
      | (Raise e, w1) => (Raise e, w1)
      end.
Proof.
  induction pre as [| d pre IH]; intros st w; [reflexivity |].
  rewrite <- app_comm_cons, !embed_batches_cons.
  destruct (get_embeddings d w) as [[vs | e] w1]; [| reflexivity].
  destruct (append_entries _ _ _ _ _ _); [apply IH | reflexivity].
Qed.

(** When every call is answered with enough vectors, the loop returns the
    entries of the batches zipped with the answers. *)
Lemma embed_batches_ok (company_name cusip : string)
    (batches : list (list string)) :
  forall (vss : list (list vector)) (st : Z * list (Entry vector)) (w w' : W),
    transcript_ batches w = (Ok vss, w') ->
    Forall2 (fun d vs => List.length d <= List.length vs) batches vss ->
    embed_batches_ company_name cusip batches st w
    = (Ok ((fst st + Z.of_nat (List.length (concat batches)))%Z,
           snd st ++ zip_batches company_name cusip (fst st) batches vss),
       w').
Proof.
  induction batches as [| d batches IH]; intros vss st w w' Ht Hall.
  - cbn in Ht. unfold ret in Ht. injection Ht as <- <-. cbn. unfold ret.
    rewrite app_nil_r, Z.add_0_r. now destruct st.
  - rewrite transcript_cons in Ht. rewrite embed_batches_cons.
    destruct (get_embeddings d w) as [[vs | e] w1]; [| discriminate].
    destruct (transcript_ batches (sleep w1)) as [[vss' | e] w2] eqn:Et;
      [| discriminate].
    injection Ht as <- <-.
    inversion Hall as [| ? ? ? ? Hd Hrest]; subst.
    rewrite append_entries_ok by exact Hd.
    rewrite (IH vss' _ _ w2 Et Hrest). cbn [fst snd concat zip_batches].
    rewrite length_app, <- app_assoc, Nat2Z.inj_add, Z.add_assoc.
    reflexivity.
Qed.

(** The loop returns only if every call was answered with enough
    vectors. *)
Lemma embed_batches_inv (company_name cusip : string)
    (batches : list (list string)) :
  forall (st st' : Z * list (Entry vector)) (w w' : W),
    embed_batches_ company_name cusip batches st w = (Ok st', w') ->
    exists vss,
      transcript_ batches w = (Ok vss, w') /\
      Forall2 (fun d vs => List.length d <= List.length vs) batches vss.
Proof.
  induction batches as [| d batches IH]; intros st st' w w' H.
  - cbn in H. unfold ret in H. injection H as <- <-.
    exists []. split; [reflexivity | constructor].
  - rewrite embed_batches_cons in H. rewrite transcript_cons.
    destruct (get_embeddings d w) as [[vs | e] w1]; [| discriminate].
    destruct (append_entries _ _ _ _ _ _) as [st1 | e] eqn:Ea;
      [| discriminate].
    apply append_entries_enough in Ea.
    destruct (IH _ _ _ _ H) as (vss & Ht & Hall).
    exists (vs :: vss). rewrite Ht. split; [reflexivity |].
    now constructor.
Qed.

End EmbedderFacts.

(** *** The entries of answered batches *)

Section ZipFacts.

Context {vector : Type}.
Variables company_name cusip_ : string.

Lemma zip_entries_text (d : list string) :
  forall (vs : list vector) (s : Z),
    List.length d <= List.length vs ->
    map text (zip_entries company_name cusip_ s d vs) = d.
Proof.
  induction d as [| t d IH]; intros [| v vs] s H; cbn in *;
    try reflexivity; try lia.
  rewrite IH by lia. reflexivity.
Qed.

Lemma zip_entries_seqId (d : list string) :
  forall (vs : list vector) (s : Z) (k : nat),
    List.length d <= List.length vs -> (s + 1)%Z = Z.of_nat k ->
    map seqId (zip_entries company_name cusip_ s d vs)
    = map Z.of_nat (seq k (List.length d)).
Proof.
  induction d as [| t d IH]; intros [| v vs] s k H Hk; cbn in *;
    try reflexivity; try lia.
  rewrite (IH vs (s + 1)%Z (S k)) by lia. now rewrite Hk.
Qed.

Lemma zip_entries_pairs (d : list string) :
  forall (vs : list vector) (s : Z),
    map (fun r => (text r, textEmbedding r))
      (zip_entries company_name cusip_ s d vs)
    = combine d vs.
Proof.
  induction d as [| t d IH]; intros [| v vs] s; cbn; try reflexivity.
  now rewrite IH.
Qed.

Lemma zip_entries_fields (d : list string) :
  forall (vs : list vector) (s : Z),
    Forall (fun r => companyName r = company_name /\ cusip r = cusip_ /\
                     contextId r = (company_name ++ str (seqId r))%string)
      (zip_entries company_name cusip_ s d vs).
Proof.
  induction d as [| t d IH]; intros [| v vs] s; cbn; constructor.
  - cbn. auto.
  - apply IH.
Qed.

Lemma zip_batches_text (batches : list (list string)) :
  forall (vss : list (list vector)) (s : Z),
    Forall2 (fun d vs => List.length d <= List.length vs) batches vss ->
    map text (zip_batches company_name cusip_ s batches vss)
    = concat batches.
Proof.
  induction batches as [| d batches IH]; intros vss s H;
    inversion H as [| ? vs ? vss' Hd Hrest]; subst; [reflexivity |].
  cbn. rewrite map_app, zip_entries_text by exact Hd.
  now rewrite IH.
Qed.

Lemma zip_batches_seqId (batches : list (list string)) :
  forall (vss : list (list vector)) (s : Z) (k : nat),
    Forall2 (fun d vs => List.length d <= List.length vs) batches vss ->
    (s + 1)%Z = Z.of_nat k ->
    map seqId (zip_batches company_name cusip_ s batches vss)
    = map Z.of_nat (seq k (List.length (concat batches))).
Proof.
  induction batches as [| d batches IH]; intros vss s k H Hk;
    inversion H as [| ? vs ? vss' Hd Hrest]; subst; [reflexivity |].
  cbn. rewrite length_app, seq_app, !map_app.
  rewrite (zip_entries_seqId d vs s k Hd Hk). f_equal.
  apply IH; [exact Hrest | lia].
Qed.

Lemma zip_batches_pairs (batches : list (list string)) :
  forall (vss : list (list vector)) (s : Z),
    map (fun r => (text r, textEmbedding r))
      (zip_batches company_name cusip_ s batches vss)
    = paired batches vss.
Proof.
  unfold paired.
  induction batches as [| d batches IH]; intros [| vs vss] s; cbn;
    try reflexivity.
  now rewrite map_app, zip_entries_pairs, IH.
Qed.

Lemma zip_batches_fields (batches : list (list string)) :
  forall (vss : list (list vector)) (s : Z),
    Forall (fun r => companyName r = company_name /\ cusip r = cusip_ /\
                     contextId r = (company_name ++ str (seqId r))%string)
      (zip_batches company_name cusip_ s batches vss).
Proof.
  induction batches as [| d batches IH]; intros [| vs vss] s; cbn;
    try constructor.
  apply Forall_app. split; [apply zip_entries_fields | apply IH].
Qed.

End ZipFacts.

Lemma seq_strictly_increasing (n k : nat) :
  StronglySorted Z.lt (map Z.of_nat (seq k n)).
Proof.
  revert k. induction n as [| n IH]; intros k; cbn; constructor.
  - apply IH.
  - apply Forall_forall. intros z Hz.
    apply in_map_iff in Hz as (i & <- & Hi). apply in_seq in Hi. lia.
Qed.

(** ** The embedder: sequence ids, synthetic ids, failures *)

Section EmbedderClaims.

Context {W vector : Type}.
Variable split_text : string -> list string.
Variable get_embeddings : list string -> M W (list vector).
Variable sleep : W -> W.
Variable form10k : string -> F10K.

Abbreviation embed_batches_ := (embed_batches get_embeddings sleep).
Abbreviation transcript_ := (transcript get_embeddings sleep).
Abbreviation create_text_embedding_entries_ :=
  (create_text_embedding_entries split_text get_embeddings sleep).
Abbreviation embed_files_ :=
  (embed_files split_text get_embeddings sleep form10k).
Abbreviation embedded_as_ :=
  (embedded_as split_text get_embeddings sleep form10k).

(** What [create_text_embedding_entries] returns when it returns. *)
Lemma create_text_embedding_entries_inv
    (input_text company_name cusip_ : string) (w w' : W)
    (res : list (Entry vector)) :
  create_text_embedding_entries_ input_text company_name cusip_ w
  = (Ok res, w') ->
  exists vss,
    transcript_ (chunks (split_text input_text) default_n) w = (Ok vss, w') /\
    Forall2 (fun d vs => List.length d <= List.length vs)
      (chunks (split_text input_text) default_n) vss /\
    res = zip_batches company_name cusip_ (-1)
            (chunks (split_text input_text) default_n) vss.
Proof.
  unfold create_text_embedding_entries, bind, ret. intros H.
  destruct (embed_batches_ company_name cusip_ _ _ w) as [[st | e] w1] eqn:E;
    [| discriminate].
  injection H as <- <-.
  destruct (embed_batches_inv _ _ _ _ _ _ _ _ _ E) as (vss & Ht & Hall).
  exists vss. repeat split; [exact Ht | exact Hall |].
  rewrite (embed_batches_ok _ _ _ _ _ _ _ _ _ Ht Hall) in E.
  injection E as <-. reflexivity.
Qed.

Lemma create_text_embedding_entries_ok
    (input_text company_name cusip_ : string) (w w' : W)
    (vss : list (list vector)) :
  transcript_ (chunks (split_text input_text) default_n) w = (Ok vss, w') ->
  Forall2 (fun d vs => List.length d <= List.length vs)
    (chunks (split_text input_text) default_n) vss ->
  create_text_embedding_entries_ input_text company_name cusip_ w
  = (Ok (zip_batches company_name cusip_ (-1)
           (chunks (split_text input_text) default_n) vss), w').
Proof.
  intros Ht Hall. unfold create_text_embedding_entries, bind, ret.
  rewrite (embed_batches_ok _ _ _ _ _ _ _ _ _ Ht Hall). reflexivity.
Qed.

(** C1. When the chunker gives k chunks for a filing text and the embedding
    model answers each batch of chunks with at least one vector per chunk,
    [create_text_embedding_entries] returns exactly k records; their seqId
    fields are 0, 1, ..., k-1 in output order (strictly increasing, no
    gap); record i carries chunk i, together with the vector the model
    returned at the position of that chunk in its batch. *)
Theorem create_text_embedding_entries_seq_ids
    (input_text company_name cusip_ : string) (w w' : W)
    (vss : list (list vector)) :
  let docs := split_text input_text in
  let k := List.length docs in
  transcript_ (chunks docs default_n) w = (Ok vss, w') ->
  Forall2 (fun d vs => List.length d <= List.length vs)
    (chunks docs default_n) vss ->
  exists res,
    create_text_embedding_entries_ input_text company_name cusip_ w
    = (Ok res, w') /\
    List.length res = k /\
    map seqId res = map Z.of_nat (seq 0 k) /\
    StronglySorted Z.lt (map seqId res) /\
    map text res = docs /\
    map (fun r => (text r, textEmbedding r)) res
    = paired (chunks docs default_n) vss.
Proof.
  cbv zeta. intros Ht Hall.
  exists (zip_batches company_name cusip_ (-1)
            (chunks (split_text input_text) default_n) vss).
  assert (Hseq : map seqId
                   (zip_batches company_name cusip_ (-1)
                      (chunks (split_text input_text) default_n) vss)
                 = map Z.of_nat (seq 0 (List.length (split_text input_text)))).
  { rewrite (zip_batches_seqId company_name cusip_ _ vss (-1) 0 Hall)
      by reflexivity.
    now rewrite concat_chunks. }
  assert (Htext : map text
                    (zip_batches company_name cusip_ (-1)
                       (chunks (split_text input_text) default_n) vss)
                  = split_text input_text).
  { rewrite zip_batches_text by exact Hall. apply concat_chunks. }
  split; [| split; [| split; [exact Hseq | split; [| split]]]].
  - apply create_text_embedding_entries_ok; assumption.
  - rewrite <- (length_map text), Htext. reflexivity.
  - rewrite Hseq. apply seq_strictly_increasing.
  - exact Htext.
  - apply zip_batches_pairs.
Qed.
(** *** Failures *)

Lemma create_text_embedding_entries_raises
    (input_text company_name cusip_ : string)
    (pre post : list (list string)) (d : list string)
    (st : Z * list (Entry vector)) (w w1 w2 : W) (e : pyexc) :
  chunks (split_text input_text) default_n = pre ++ d :: post ->
  embed_batches_ company_name cusip_ pre ((-1)%Z, []) w = (Ok st, w1) ->
  get_embeddings d w1 = (Raise e, w2) ->
  create_text_embedding_entries_ input_text company_name cusip_ w
  = (Raise e, w2).
Proof.
  intros Hc Hpre Hd. unfold create_text_embedding_entries, bind.
  rewrite Hc, embed_batches_app, Hpre, embed_batches_cons, Hd. reflexivity.
Qed.

Lemma embed_files_cons (file_name : string) (rest : list string)
    (st : Z * list (Entry vector)) (w : W) :
  embed_files_ (file_name :: rest) st w
  = if contains ".txt" file_name then
      match create_text_embedding_entries_
              (item1 (form10k file_name))
              (f10k_companyName (form10k file_name))
              (f10k_cusip (form10k file_name)) w with
      | (Ok es, w1) => embed_files_ rest ((fst st + 1)%Z, snd st ++ es) w1
      | (Raise e, w1) => (Raise e, w1)
      end
    else embed_files_ rest st w.
Proof.
  cbn [embed_files]. destruct (contains ".txt" file_name); [| reflexivity].
  unfold bind at 1. reflexivity.
Qed.

Lemma embed_files_app (fpre fpost : list string) :
  forall (st : Z * list (Entry vector)) (w : W),
    embed_files_ (fpre ++ fpost) st w
    = match embed_files_ fpre st w with
      | (Ok st', w1) => embed_files_ fpost st' w1
      | (Raise e, w1) => (Raise e, w1)
      end.
Proof.
  induction fpre as [| f fpre IH]; intros st w; [reflexivity |].
  rewrite <- app_comm_cons, !embed_files_cons.
  destruct (contains ".txt" f); [| apply IH].
  destruct (create_text_embedding_entries_ _ _ _ w) as [[es | e] w1];
    [apply IH | reflexivity].
Qed.

(** C8. Nothing catches an exception of the embedding model.  When a call
    of the model raises, after the batches before it were embedded,
    [create_text_embedding_entries] raises the same exception: it returns
    no record of the filing, and the world is the one the failing call
    left, so the call is not made again and no later batch is sent.  The
    loop over the files and the notebook raise it too: no later file is
    embedded and the upsert loop does not run. *)
Theorem embedding_failure_propagates
    (listing fpre fpost : list string) (file_name : string)
    (g : Graph vector) (pre post : list (list string)) (d : list string)
    (stf st : Z * list (Entry vector)) (w0 w w1 w2 : W) (e : pyexc) :
  let f10_k := form10k file_name in
  file_names listing = fpre ++ file_name :: fpost ->
  embed_files_ fpre (0%Z, []) w0 = (Ok stf, w) ->
  contains ".txt" file_name = true ->
  chunks (split_text (item1 f10_k)) default_n = pre ++ d :: post ->
  embed_batches_ (f10k_companyName f10_k) (f10k_cusip f10_k) pre
    ((-1)%Z, []) w = (Ok st, w1) ->
  get_embeddings d w1 = (Raise e, w2) ->
  create_text_embedding_entries_
    (item1 f10_k) (f10k_companyName f10_k) (f10k_cusip f10_k) w
  = (Raise e, w2) /\
  embedding_entries split_text get_embeddings sleep form10k listing w0
  = (Raise e, w2) /\
  notebook split_text get_embeddings sleep form10k listing g w0
  = (Raise e, w2).
Proof.
  cbv zeta. intros Hl Hf Htxt Hc Hpre Hd.
  pose proof (create_text_embedding_entries_raises _ _ _ _ _ _ _ _ _ _ _
                Hc Hpre Hd) as Hcte.
  assert (He : embedding_entries split_text get_embeddings sleep form10k
                 listing w0 = (Raise e, w2)).
  { unfold embedding_entries, bind.
    rewrite Hl, embed_files_app, Hf, embed_files_cons, Htxt, Hcte.
    reflexivity. }
  split; [exact Hcte | split; [exact He |]].
  unfold notebook, bind. rewrite He. reflexivity.
Qed.

(** *** Synthetic ids *)

Lemma NoDup_app_disjoint {A : Type} (l1 l2 : list A) (x : A) :
  NoDup (l1 ++ l2) -> In x l1 -> In x l2 -> False.
Proof.
  induction l1 as [| y l1 IH]; intros Hnd H1 H2; [destruct H1 |].
  cbn in Hnd. inversion Hnd as [| ? ? Hy Hnd']; subst.
  destruct H1 as [-> | H1].
  - apply Hy, in_or_app. now right.
  - now apply IH.
Qed.

Lemma embed_files_inv (fs : list string) :
  forall (st st' : Z * list (Entry vector)) (w w' : W),
    embed_files_ fs st w = (Ok st', w') ->
    exists ess,
      snd st' = snd st ++ concat ess /\
      Forall2 embedded_as_ (filter (contains ".txt") fs) ess.
Proof.
  induction fs as [| f fs IH]; intros st st' w w' H.
  - cbn in H. unfold ret in H. injection H as <- <-.
    exists []. cbn. rewrite app_nil_r. split; [reflexivity | constructor].
  - rewrite embed_files_cons in H. cbn [filter].
    destruct (contains ".txt" f); [| apply (IH _ _ _ _ H)].
    destruct (create_text_embedding_entries_ _ _ _ w) as [[es | e] w1] eqn:E;
      [| discriminate].
    destruct (IH _ _ _ _ H) as (ess & Heq & Hall).
    exists (es :: ess). cbn [snd concat] in *.
    rewrite Heq, <- app_assoc. split; [reflexivity |].
    constructor; [| exact Hall]. now exists w, w1.
Qed.

Lemma embedded_as_fields (f : string) (res : list (Entry vector)) :
  embedded_as_ f res ->
  Forall (fun r => contextId r = (companyName r ++ str (seqId r))%string) res.
Proof.
  intros (w1 & w2 & H).
  apply create_text_embedding_entries_inv in H as (vss & _ & _ & ->).
  eapply Forall_impl; [| apply zip_batches_fields].
  cbn. intros r (-> & _ & ->). reflexivity.
Qed.

(** A filing with at least one chunk has a record numbered 0. *)
Lemma embedded_as_first (f : string) (res : list (Entry vector)) :
  embedded_as_ f res ->
  Nat.eqb (List.length (split_text (item1 (form10k f)))) 0 = false ->
  In (f10k_companyName (form10k f) ++ "0")%string (map contextId res).
Proof.
  intros (w1 & w2 & H) Hne. apply Nat.eqb_neq in Hne.
  apply create_text_embedding_entries_inv in H as (vss & _ & Hall & ->).
  set (docs := split_text (item1 (form10k f))) in *.
  set (name := f10k_companyName (form10k f)).
  set (res := zip_batches name (f10k_cusip (form10k f)) (-1)
                (chunks docs default_n) vss).
  assert (H0 : In 0%Z (map seqId res)).
  { unfold res. rewrite (zip_batches_seqId _ _ _ vss (-1) 0 Hall)
      by reflexivity.
    rewrite concat_chunks. apply in_map_iff. exists 0. split; [reflexivity |].
    apply in_seq. lia. }
  apply in_map_iff in H0 as (r & Hr0 & Hr).
  apply in_map_iff. exists r. split; [| exact Hr].
  pose proof (zip_batches_fields name (f10k_cusip (form10k f))
                (chunks docs default_n) vss (-1)) as Hf.
  rewrite Forall_forall in Hf. destruct (Hf r Hr) as (_ & _ & ->).
  now rewrite Hr0.
Qed.

Lemma distinct_ids_distinct_names (fs : list string)
    (ess : list (list (Entry vector))) :
  Forall2 embedded_as_ fs ess ->
  NoDup (map contextId (concat ess)) ->
  NoDup (map (fun f => f10k_companyName (form10k f))
           (filter
              (fun f => negb (Nat.eqb
                 (List.length (split_text (item1 (form10k f)))) 0)) fs)).
Proof.
  induction 1 as [| f res fs ess Hf Hall IH]; intros Hnd; [constructor |].
  cbn [concat] in Hnd. rewrite map_app in Hnd.
  assert (Htail : NoDup (map contextId (concat ess)))
    by (eapply NoDup_app_remove_l; exact Hnd).
  cbn [filter].
  destruct (Nat.eqb (List.length (split_text (item1 (form10k f)))) 0) eqn:E;
    cbn [negb]; [apply IH, Htail |].
  cbn [map]. constructor; [| apply IH, Htail].
  intros Hin. apply in_map_iff in Hin as (f' & Hname & Hf').
  apply filter_In in Hf' as [Hf' Hne']. apply negb_true_iff in Hne'.
  assert (Hres' : exists res', In res' ess /\ embedded_as_ f' res').
  { clear -Hall Hf'. induction Hall as [| a b l l' Hab Hl IHl];
      [destruct Hf' |].
    destruct Hf' as [<- | Hf'].
    - exists b. split; [now left | exact Hab].
    - destruct (IHl Hf') as (r & Hr & Hrr). exists r. split; [now right | exact Hrr]. }
  destruct Hres' as (res' & Hin' & Hemb').
  apply (NoDup_app_disjoint _ _
           (f10k_companyName (form10k f) ++ "0")%string Hnd).
  - apply embedded_as_first; assumption.
  - rewrite <- Hname. rewrite concat_map.
    apply in_concat. exists (map contextId res'). split.
    + apply in_map, Hin'.
    + apply embedded_as_first; assumption.
Qed.

(** C7. In every record the run produces, the synthetic id contextId is
    the company name followed by the decimal digits of the sequence id.
    If these ids are pairwise distinct across the records of the run, then
    the company names of the filings that contributed records are pairwise
    distinct. *)
Theorem contextId_name_and_sequence (listing : list string) (w w' : W)
    (es : list (Entry vector)) :
  embedding_entries split_text get_embeddings sleep form10k listing w
  = (Ok es, w') ->
  Forall (fun r => contextId r = (companyName r ++ str (seqId r))%string) es /\
  (NoDup (map contextId es) ->
   NoDup (map (fun f => f10k_companyName (form10k f))
            (contributing split_text form10k (file_names listing)))).
Proof.
  unfold embedding_entries, bind, ret. intros H.
  destruct (embed_files_ (file_names listing) (0%Z, []) w)
    as [[st | e] w1] eqn:E; [| discriminate].
  injection H as <- <-.
  apply embed_files_inv in E as (ess & Heq & Hall). cbn [snd app] in Heq.
  rewrite Heq. split.
  - apply Forall_concat. clear Heq.
    induction Hall as [| f res fs ess' Hf Hall' IH]; constructor.
    + eapply embedded_as_fields, Hf.
    + exact IH.
  - intros Hnd. unfold contributing.
    apply (distinct_ids_distinct_names _ ess Hall Hnd).
Qed.

(** *** One filing, from the text to the graph *)

Lemma chunks_one_batch {A : Type} (xs : list A) :
  List.length xs = 3 -> chunks xs default_n = [xs].
Proof.
  intros H. rewrite chunks_cons by (intros ->; discriminate).
  change (step_of default_n) with 3.
  rewrite firstn_all2, skipn_all2 by lia. now rewrite chunks_nil.
Qed.

Lemma acme_ids_NoDup : NoDup ["Acme0"; "Acme1"; "Acme2"]%string.
Proof.
  repeat constructor; cbn; intros H;
    repeat (destruct H as [H | H]; [discriminate |]); exact H.
Qed.

(** C3. A filing with company key "C1" and company name "Acme", whose
    business description the splitter cuts into 3 chunks, embedded by a
    model that answers the batch, and loaded into a store that has a
    Company node with cusip "C1" and no document of these ids yet: the
    embedder returns 3 records with the synthetic ids "Acme0", "Acme1",
    "Acme2", the notebook makes one round trip and adds exactly these 3
    Document nodes, and each of them is linked from the Company node. *)
Theorem acme_end_to_end (file_name input_text : string) (g : Graph vector)
    (c : Company) (vs : list vector) (w w1 : W) :
  form10k file_name
  = {| item1 := input_text; f10k_companyName := "Acme";
       f10k_cusip := "C1" |} ->
  contains ".txt" file_name = true ->
  List.length (split_text input_text) = 3 ->
  get_embeddings (split_text input_text) w = (Ok vs, w1) ->
  3 <= List.length vs ->
  In c (companies g) -> c_cusip c = "C1"%string ->
  (forall id, In id ["Acme0"; "Acme1"; "Acme2"]%string ->
              ~ In id (document_ids g)) ->
  exists es loader,
    create_text_embedding_entries_ input_text "Acme" "C1" w
    = (Ok es, sleep w1) /\
    map text es = split_text input_text /\
    map contextId es = ["Acme0"; "Acme1"; "Acme2"]%string /\
    notebook split_text get_embeddings sleep form10k [file_name] g w
    = (Ok loader, sleep w1) /\
    List.length (round_trips loader) = 1 /\
    document_ids (graph loader)
    = document_ids g ++ ["Acme0"; "Acme1"; "Acme2"]%string /\
    document_count (graph loader) = document_count g + 3 /\
    Forall (linked (graph loader) c) ["Acme0"; "Acme1"; "Acme2"]%string.
Proof.
  intros Hfile Htxt Hlen Hget Hvs Hc Hcusip Hfresh.
  pose proof (chunks_one_batch _ Hlen) as Hchunks.
  assert (Ht : transcript_ (chunks (split_text input_text) default_n) w
               = (Ok [vs], sleep w1)).
  { rewrite Hchunks, transcript_cons, Hget. reflexivity. }
  assert (Hall : Forall2 (fun d vs => List.length d <= List.length vs)
                   (chunks (split_text input_text) default_n) [vs]).
  { rewrite Hchunks. repeat constructor. lia. }
  pose proof (create_text_embedding_entries_ok input_text "Acme" "C1"
                w (sleep w1) [vs] Ht Hall) as Hcte.
  set (es := zip_batches "Acme" "C1" (-1)
               (chunks (split_text input_text) default_n) [vs]) in *.
  assert (Htext : map text es = split_text input_text).
  { unfold es. rewrite zip_batches_text by exact Hall. apply concat_chunks. }
  assert (Hids : map contextId es = ["Acme0"; "Acme1"; "Acme2"]%string).
  { unfold es. rewrite Hchunks.
    destruct (split_text input_text) as [| d0 [| d1 [| d2 [| d3 ds]]]];
      try discriminate.
    destruct vs as [| v0 [| v1 [| v2 vs']]]; cbn in Hvs; try lia.
    reflexivity. }
  assert (Hcus : Forall (fun r => cusip r = "C1"%string) es).
  { eapply Forall_impl; [| apply zip_batches_fields]. cbn. tauto. }
  assert (Hmatched : filter (matched g) es = es).
  { apply forallb_filter_id. apply forallb_forall. intros r Hr.
    rewrite Forall_forall in Hcus. unfold matched.
    apply existsb_exists. exists c. split; [exact Hc |].
    apply String.eqb_eq. now rewrite (Hcus r Hr). }
  assert (Hdocs : document_ids (graph (upsert_loop es g))
                  = document_ids g ++ ["Acme0"; "Acme1"; "Acme2"]%string).
  { rewrite upsert_loop_document_ids, Hmatched, Hids.
    apply merge_ids_fresh; [apply acme_ids_NoDup | exact Hfresh]. }
  exists es, (upsert_loop es g).
  split; [exact Hcte |]. split; [exact Htext |]. split; [exact Hids |].
  split; [| split; [| split; [exact Hdocs | split]]].
  - unfold notebook, embedding_entries, bind, ret.
    change (file_names [file_name]) with [file_name].
    rewrite embed_files_cons, Htxt, Hfile. cbn [item1 f10k_companyName
      f10k_cusip]. rewrite Hcte. reflexivity.
  - unfold upsert_loop. rewrite upsert_batches_trips. cbn [round_trips app].
    rewrite length_chunks, <- (length_map contextId), Hids. reflexivity.
  - unfold document_count.
    rewrite <- (length_map documentId (documents (graph _))).
    fold (document_ids (graph (upsert_loop es g))).
    rewrite Hdocs, length_app. unfold document_ids. rewrite length_map.
    reflexivity.
  - rewrite <- Hids. apply Forall_forall. intros id Hid.
    apply in_map_iff in Hid as (r & <- & Hr).
    rewrite upsert_loop_graph. apply rows_linked.
    apply match_rows_in; [exact Hr | exact Hc |].
    rewrite Forall_forall in Hcus. now rewrite (Hcus r Hr).
Qed.

End EmbedderClaims.

(** ** The chatbot *)

Section ChatClaims.

Context {W : Type}.
Variable agent_chain : string -> M W string.

(** C5. [chat_response] returns the text of the completion model as it is
    when the call succeeds, and the fixed apology, as a normal return
    value, when the call raises, whatever the exception.  With a model
    that raises on "trigger-error", [chat_response("trigger-error",
    history)] returns the apology. *)
Theorem chat_response_apology (input_text : string)
    (history : list (string * string)) (w w' : W) :
  (forall answer, agent_chain input_text w = (Ok answer, w') ->
     chat_response agent_chain input_text history w = (Ok answer, w')) /\
  (forall e, agent_chain input_text w = (Raise e, w') ->
     chat_response agent_chain input_text history w = (Ok apology, w')) /\
  (forall n, chat_response stub_chain "trigger-error" history n
             = (Ok apology, S n)) /\
  apology
  = "I'm sorry, there was an error retrieving the information you requested."%string.
Proof.
  unfold chat_response. repeat split.
  - intros answer H. now rewrite H.
  - intros e H. now rewrite H.
Qed.

(** C9. The answer of [chat_response] does not depend on its history
    argument, nor on what the global memory object holds: the memory is
    created and never read or written, and only the input text reaches the
    model. *)
Theorem chat_response_ignores_history (input_text : string)
    (h1 h2 : list (string * string)) (m1 m2 : ConversationBufferMemory)
    (w : W) :
  chat_response agent_chain input_text h1 w
  = chat_response agent_chain input_text h2 w /\
  fst (fst (chat_turn agent_chain m1 input_text h1 w))
  = fst (fst (chat_turn agent_chain m2 input_text h2 w)) /\
  snd (chat_turn agent_chain m1 input_text h1 w)
  = snd (chat_turn agent_chain m2 input_text h2 w) /\
  snd (fst (chat_turn agent_chain m1 input_text h1 w)) = m1.
Proof.
  unfold chat_turn, chat_response.
  destruct (agent_chain input_text w) as [[answer | e] w']; repeat split.
Qed.

End ChatClaims.

(** ** The notebooks on the stand-in services *)

Example fox_batches :
  chunks (fox_split fox_text) default_n
  = [["the "; " qui"; "ick "]; [" bro"; "own "; " fox"]; ["x ju"; "umps"]]%string.
Proof. reflexivity. Qed.

Example fox_entries :
  match create_text_embedding_entries fox_split length_model no_sleep
          fox_text "Acme" "C1" 0 with
  | (Ok res, w) =>
      map contextId res
      = ["Acme0"; "Acme1"; "Acme2"; "Acme3"; "Acme4"; "Acme5"; "Acme6";
         "Acme7"]%string /\ w = 3
  | (Raise _, _) => False
  end.
Proof. vm_compute. split; reflexivity. Qed.

(** A model that answers with too few vectors makes the embedder raise
    [IndexError]. *)
Example short_answer_raises :
  create_text_embedding_entries fox_split short_model no_sleep
    fox_text "Acme" "C1" 0
  = (Raise IndexError, 1).
Proof. reflexivity. Qed.

(** Distinct company names do not make the synthetic ids distinct: record
    10 of "Acme" and record 0 of "Acme1" are both "Acme10". *)
Example distinct_names_same_id :
  match embedding_entries (window_split 3 0) length_model no_sleep
          two_archive ["a.txt"; "b.txt"] 0 with
  | (Ok es, _) =>
      nth_error (map contextId es) 10 = Some "Acme10"%string /\
      nth_error (map contextId es) 12 = Some "Acme10"%string /\
      nth_error (map companyName es) 10 = Some "Acme"%string /\
      nth_error (map companyName es) 12 = Some "Acme1"%string
  | (Raise _, _) => False
  end.
Proof. vm_compute. repeat split. Qed.

Example acme_run :
  match notebook (window_split 2000 15) length_model no_sleep acme_archive
          ["0001830197-22-000038.txt"] acme_graph 0 with
  | (Ok loader, _) =>
      document_ids (graph loader) = ["Acme0"; "Acme1"; "Acme2"]%string /\
      has (graph loader) = [(0, 1); (0, 2); (0, 3)] /\
      map d_seqId (documents (graph loader)) = [Some 0; Some 1; Some 2]%Z /\
      List.length (round_trips loader) = 1 /\ count loader = 3%Z
  | (Raise _, _) => False
  end.
Proof. vm_compute. repeat split. Qed.

Example stray_run :
  run_upsert_query [acme_entry 0 "a"; stray_entry; acme_entry 1 "b"]
    acme_graph
  = run_upsert_query [acme_entry 0 "a"; acme_entry 1 "b"] acme_graph /\
  snd (run_upsert_query [acme_entry 0 "a"; stray_entry; acme_entry 1 "b"]
         acme_graph) = 2.
Proof. split; reflexivity. Qed.

(** ** The claims at concrete inputs *)

(** C1 on the short text: 8 chunks in 3 batches, a model that answers each
    batch. *)
Lemma create_text_embedding_entries_seq_ids_witness :
  let docs := fox_split fox_text in
  let vss := map (map (fun t => [Z.of_nat (String.length t)]))
               (chunks docs default_n) in
  transcript length_model no_sleep (chunks docs default_n) 0 = (Ok vss, 3) /\
  exists res,
    create_text_embedding_entries fox_split length_model no_sleep
      fox_text "Acme" "C1" 0 = (Ok res, 3) /\
    List.length res = 8 /\
    map seqId res = map Z.of_nat (seq 0 8) /\
    StronglySorted Z.lt (map seqId res) /\
    map text res = docs /\
    map (fun r => (text r, textEmbedding r)) res
    = paired (chunks docs default_n) vss.
Proof.
  cbv zeta. split; [reflexivity |].
  apply (create_text_embedding_entries_seq_ids fox_split length_model
           no_sleep fox_text "Acme" "C1" 0 3).
  - reflexivity.
  - vm_compute. repeat constructor.
Defined.

(** C8 on the short text: the model is out of quota at its second call. *)
Lemma embedding_failure_propagates_witness :
  quota_model [" bro"; "own "; " fox"]%string 1
  = (Raise (ServiceError "quota exceeded"), 2) /\
  create_text_embedding_entries fox_split quota_model no_sleep
    fox_text "Acme" "C1" 0
  = (Raise (ServiceError "quota exceeded"), 2) /\
  embedding_entries fox_split quota_model no_sleep fox_archive ["a.txt"%string] 0
  = (Raise (ServiceError "quota exceeded"), 2) /\
  notebook fox_split quota_model no_sleep fox_archive ["a.txt"%string]
    acme_graph 0
  = (Raise (ServiceError "quota exceeded"), 2).
Proof.
  split; [reflexivity |].
  apply (embedding_failure_propagates fox_split quota_model no_sleep
           fox_archive ["a.txt"%string] [] [] "a.txt" acme_graph
           [["the "; " qui"; "ick "]%string] [["x ju"; "umps"]%string]
           [" bro"; "own "; " fox"]%string
           (0%Z, [])
           (2%Z, zip_entries "Acme" "C1" (-1) ["the "; " qui"; "ick "]%string
                   [[4%Z]; [4%Z]; [4%Z]])
           0 0 1 2 (ServiceError "quota exceeded"));
    reflexivity.
Defined.

(** C7 on two filings of two companies: the ids are pairwise distinct, and
    so are the names. *)
Lemma contextId_name_and_sequence_witness :
  exists es,
    embedding_entries (window_split 3 0) length_model no_sleep
      acme_beta_archive ["b.txt"; "notes"; "a.txt"]%string 0 = (Ok es, 3) /\
    Forall (fun r => contextId r = (companyName r ++ str (seqId r))%string) es /\
    map contextId es = ["Beta0"; "Acme0"; "Acme1"; "Acme2"; "Acme3"]%string /\
    NoDup (map contextId es) /\
    NoDup (map (fun f => f10k_companyName (acme_beta_archive f))
             (contributing (window_split 3 0) acme_beta_archive
                (file_names ["b.txt"; "notes"; "a.txt"]%string))).
Proof.
  eexists. split; [vm_compute; reflexivity |].
  pose proof (contextId_name_and_sequence (window_split 3 0) length_model
                no_sleep acme_beta_archive
                ["b.txt"; "notes"; "a.txt"]%string 0 3 _
                ltac:(vm_compute; reflexivity)) as [Hfields Honly].
  assert (Hids : NoDup ["Beta0"; "Acme0"; "Acme1"; "Acme2"; "Acme3"]%string).
  { repeat constructor; cbn; intros H;
      repeat (destruct H as [H | H]; [discriminate |]); exact H. }
  split; [exact Hfields |]. split; [reflexivity |].
  split; [exact Hids | exact (Honly Hids)].
Defined.

(** C3 on a description of 5000 characters cut into windows of 2000 with
    an overlap of 15. *)
Lemma acme_end_to_end_witness :
  map String.length (window_split 2000 15 description_5000)
  = [2000; 2000; 1030] /\
  exists es loader,
    create_text_embedding_entries (window_split 2000 15) length_model
      no_sleep description_5000 "Acme" "C1" 0 = (Ok es, 1) /\
    map text es = window_split 2000 15 description_5000 /\
    map contextId es = ["Acme0"; "Acme1"; "Acme2"]%string /\
    notebook (window_split 2000 15) length_model no_sleep acme_archive
      ["0001830197-22-000038.txt"%string] acme_graph 0 = (Ok loader, 1) /\
    List.length (round_trips loader) = 1 /\
    document_ids (graph loader) = ["Acme0"; "Acme1"; "Acme2"]%string /\
    document_count (graph loader) = 3 /\
    Forall (linked (graph loader) acme_company)
      ["Acme0"; "Acme1"; "Acme2"]%string.
Proof.
  split; [vm_compute; reflexivity |].
  apply (acme_end_to_end (window_split 2000 15) length_model no_sleep
           acme_archive "0001830197-22-000038.txt" description_5000
           acme_graph acme_company
           (map (fun t => [Z.of_nat (String.length t)])
              (window_split 2000 15 description_5000)) 0 1).
  - reflexivity.
  - reflexivity.
  - vm_compute. reflexivity.
  - reflexivity.
  - vm_compute. apply le_n.
  - left. reflexivity.
  - reflexivity.
  - intros id _ [].
Defined.

(** C10 on a record of a company the store does not have. *)
Lemma unmatched_record_dropped_witness :
  run_upsert_query [stray_entry] acme_graph = (acme_graph, 0) /\
  run_upsert_query [acme_entry 0 "a"; stray_entry; acme_entry 1 "b"]
    acme_graph
  = run_upsert_query [acme_entry 0 "a"; acme_entry 1 "b"] acme_graph /\
  graph (upsert_loop [acme_entry 0 "a"; stray_entry; acme_entry 1 "b"]
           acme_graph)
  = graph (upsert_loop [acme_entry 0 "a"; acme_entry 1 "b"] acme_graph).
Proof.
  apply (unmatched_record_dropped acme_graph stray_entry
           [acme_entry 0 "a"] [acme_entry 1 "b"]).
  intros c [<- | []]. discriminate.
Defined.

(** C5 on the model that raises on "trigger-error". *)
Lemma chat_response_apology_witness :
  chat_response stub_chain "hello" [] 0 = (Ok "You said: hello"%string, 1) /\
  chat_response stub_chain "trigger-error" [] 0 = (Ok apology, 1).
Proof.
  split.
  - apply (proj1 (chat_response_apology stub_chain "hello" [] 0 1)).
    reflexivity.
  - apply (proj1 (proj2 (chat_response_apology stub_chain "trigger-error"
                           [] 0 1)) (ServiceError "model failure")).
    reflexivity.
Defined.

(** * The rest of the notebook code *)

(** ** [chunks] for every batch size *)

Section ChunksMore.

Context {A : Type}.

(** X1. For every list and every [n], also zero or negative, the batches of
    [chunks] concatenate to the list in order; no batch is empty and none
    has more than [max(1, n)] elements; every batch before the last has
    exactly [max(1, n)]; there are [ceil(len(xs) / max(1, n))] batches. *)
Theorem chunks_partition (xs : list A) (n : Z) :
  let m := Z.to_nat (Z.max 1 n) in
  concat (chunks xs n) = xs /\
  Forall (fun d => 1 <= List.length d <= m) (chunks xs n) /\
  Forall (fun d => List.length d = m) (removelast (chunks xs n)) /\
  List.length (chunks xs n) = ceil_div (List.length xs) m.
Proof.
  cbv zeta. fold (step_of n).
  split; [apply concat_chunks |].
  split; [apply chunks_bounds |].
  split; [| apply length_chunks].
  apply Forall_forall. intros d Hd.
  apply In_nth_error in Hd as [i Hi].
  set (bs := chunks xs n) in *.
  assert (Hlt : i < List.length (removelast bs))
    by (apply nth_error_Some; congruence).
  assert (Hbs : bs <> []) by (intros E; rewrite E in Hlt; cbn in Hlt; lia).
  pose proof (app_removelast_last [] Hbs) as Happ.
  assert (Hlen : List.length bs = S (List.length (removelast bs))).
  { rewrite Happ at 1. rewrite length_app. cbn. lia. }
  apply (chunks_full xs n i d); fold bs; [| lia].
  rewrite Happ, nth_error_app1 by exact Hlt. exact Hi.
Qed.

(** X2. With [n <= 1], so also with zero or a negative [n], [max(1, n)]
    makes the batch size 1: every element is a batch of its own. *)
Theorem chunks_singletons (xs : list A) (n : Z) :
  (n <= 1)%Z -> chunks xs n = map (fun x => [x]) xs.
Proof.
  intros Hn.
  assert (Hstep : step_of n = 1) by (unfold step_of; lia).
  induction xs as [| x xs IH]; [apply chunks_nil |].
  rewrite chunks_cons by discriminate. rewrite Hstep. cbn. now rewrite IH.
Qed.

(** X3. [chunks] gives no batch exactly for the empty list, and a list of
    at most [max(1, n)] elements that is not empty is one batch. *)
Theorem chunks_small (xs : list A) (n : Z) :
  (chunks xs n = [] <-> xs = []) /\
  (xs <> [] -> List.length xs <= Z.to_nat (Z.max 1 n) -> chunks xs n = [xs]).
Proof.
  fold (step_of n). split; [split |].
  - intros H. destruct xs as [| x xs]; [reflexivity |].
    rewrite chunks_cons in H by discriminate. discriminate.
  - intros ->. apply chunks_nil.
  - intros Hne Hlen. rewrite chunks_cons by exact Hne.
    rewrite firstn_all2, skipn_all2 by exact Hlen. now rewrite chunks_nil.
Qed.

(** X4. Cutting a list at a multiple of the batch size cuts the batches:
    when [len(xs)] is a multiple of [max(1, n)], the batches of [xs + ys]
    are those of [xs] followed by those of [ys]. *)
Theorem chunks_app (xs ys : list A) (n : Z) (k : nat) :
  List.length xs = k * Z.to_nat (Z.max 1 n) ->
  chunks (xs ++ ys) n = chunks xs n ++ chunks ys n.
Proof.
  fold (step_of n). pose proof (step_of_pos n) as Hpos.
  revert xs. induction k as [| k IH]; intros xs Hlen.
  - destruct xs; [| discriminate]. now rewrite chunks_nil.
  - assert (Hne : xs <> []) by (intros ->; cbn in Hlen; lia).
    assert (Hge : step_of n <= List.length xs) by lia.
    rewrite (chunks_cons (xs ++ ys))
      by (destruct xs; [congruence | discriminate]).
    rewrite (chunks_cons xs) by exact Hne.
    rewrite firstn_app, skipn_app.
    replace (step_of n - List.length xs) with 0 by lia.
    cbn [firstn skipn]. rewrite app_nil_r, <- app_comm_cons. f_equal.
    apply IH. rewrite length_skipn. lia.
Qed.

End ChunksMore.

(** ** The embedder and the loop over the files *)

Lemma str_injective (a b : Z) : str a = str b -> a = b.
Proof.
  unfold str. intros H.
  assert (Hn : forall z, Z.to_int z <> Decimal.Pos Decimal.Nil /\
                         Z.to_int z <> Decimal.Neg Decimal.Nil).
  { intros z. pose proof (DecimalZ.to_of (Z.to_int z)) as E.
    rewrite DecimalZ.of_to in E.
    split; intros Hz; rewrite Hz in E; discriminate. }
  apply (f_equal NilZero.int_of_string) in H.
  rewrite !NilZero.isi in H by apply Hn.
  injection H as H. now apply DecimalZ.to_int_inj.
Qed.

Lemma append_injective (p s1 s2 : string) :
  (p ++ s1)%string = (p ++ s2)%string -> s1 = s2.
Proof.
  induction p as [| c p IH]; cbn; intros H; [exact H |].
  injection H as H. now apply IH.
Qed.

Lemma map_constant {A B : Type} (h : A -> B) (c : B) (l : list A) :
  Forall (fun r => h r = c) l -> map h l = repeat c (List.length l).
Proof.
  induction 1 as [| r l Hr _ IH]; [reflexivity |]. cbn. now rewrite Hr, IH.
Qed.

Lemma map_concat_Forall2 {A B C : Type} (h : B -> C) (F : A -> list C)
    (R : A -> list B -> Prop) (fs : list A) (ess : list (list B)) :
  (forall f res, R f res -> map h res = F f) ->
  Forall2 R fs ess -> map h (concat ess) = flat_map F fs.
Proof.
  intros HR. induction 1 as [| f res fs ess Hf _ IH]; [reflexivity |].
  cbn. now rewrite map_app, (HR f res Hf), IH.
Qed.

Section EmbedderMore.

Context {W vector : Type}.
Variable split_text : string -> list string.
Variable get_embeddings : list string -> M W (list vector).
Variable sleep : W -> W.
Variable form10k : string -> F10K.

Abbreviation embed_batches_ := (embed_batches get_embeddings sleep).
Abbreviation transcript_ := (transcript get_embeddings sleep).
Abbreviation create_text_embedding_entries_ :=
  (create_text_embedding_entries split_text get_embeddings sleep).
Abbreviation embed_files_ :=
  (embed_files split_text get_embeddings sleep form10k).
Abbreviation embedding_entries_ :=
  (embedding_entries split_text get_embeddings sleep form10k).
Abbreviation notebook_ :=
  (notebook split_text get_embeddings sleep form10k).
Abbreviation embedded_as_ :=
  (embedded_as split_text get_embeddings sleep form10k).

(** X5. A text the splitter cuts into no chunk gives no record, and the
    embedding model is not called and nothing sleeps: the world is the one
    before the call. *)
Theorem no_chunk_no_call (input_text company_name cusip_ : string) (w : W) :
  split_text input_text = [] ->
  create_text_embedding_entries split_text get_embeddings sleep
    input_text company_name cusip_ w
  = (Ok [], w).
Proof.
  intros H. unfold create_text_embedding_entries, bind, ret.
  rewrite H, chunks_nil. reflexivity.
Qed.

(** X6. When the model answers a batch with fewer vectors than the batch
    has chunks, after the batches before it were embedded,
    [create_text_embedding_entries] raises [IndexError] after the sleep that
    follows the call; no record is returned and no later batch is sent. *)
Theorem too_few_vectors_raise_IndexError
    (input_text company_name cusip_ : string)
    (pre post : list (list string)) (d : list string) (vs : list vector)
    (st : Z * list (Entry vector)) (w w1 w2 : W) :
  chunks (split_text input_text) default_n = pre ++ d :: post ->
  embed_batches_ company_name cusip_ pre ((-1)%Z, []) w = (Ok st, w1) ->
  get_embeddings d w1 = (Ok vs, w2) ->
  List.length vs < List.length d ->
  create_text_embedding_entries_ input_text company_name cusip_ w
  = (Raise IndexError, sleep w2).
Proof.
  intros Hc Hpre Hd Hlt. unfold create_text_embedding_entries, bind.
  rewrite Hc, embed_batches_app, Hpre, embed_batches_cons, Hd.
  destruct (append_entries company_name cusip_ vs d
              (range 0 (List.length d) 1) st) as [st' | e] eqn:E.
  - apply append_entries_enough in E. lia.
  - apply append_entries_raises in E. now subst.
Qed.

(** X7. [create_text_embedding_entries] returns only if the model answered
    every batch with at least one vector per chunk.  It then called the
    model once for each batch of at most 3 chunks, [ceil(k / 3)] times for
    k chunks, in order, sleeping after each call, and returns k records. *)
Theorem returns_only_if_answered
    (input_text company_name cusip_ : string) (w w' : W)
    (res : list (Entry vector)) :
  create_text_embedding_entries_ input_text company_name cusip_ w
  = (Ok res, w') ->
  let docs := split_text input_text in
  exists vss,
    transcript_ (chunks docs default_n) w = (Ok vss, w') /\
    Forall2 (fun d vs => 1 <= List.length d <= 3 /\
                         List.length d <= List.length vs)
      (chunks docs default_n) vss /\
    List.length vss = ceil_div (List.length docs) 3 /\
    List.length res = List.length docs.
Proof.
  intros H. cbv zeta.
  apply create_text_embedding_entries_inv in H as (vss & Ht & Hall & ->).
  exists vss. split; [exact Ht |].
  pose proof (chunks_bounds (split_text input_text) default_n) as Hb.
  pose proof (Forall2_length Hall) as Hlen.
  split; [| split].
  - clear Ht Hlen. induction Hall as [| d vs ds vss' Hd _ IH];
      constructor.
    + inversion Hb; subst. split; assumption.
    + apply IH. now inversion Hb.
  - rewrite <- Hlen. apply (length_chunks (split_text input_text) default_n).
  - rewrite <- (length_map text), zip_batches_text by exact Hall.
    now rewrite concat_chunks.
Qed.

(** X8. The records of one filing all carry the company name and the cusip
    the function was called with, and their sequence ids and their
    synthetic ids are pairwise distinct. *)
Theorem one_filing_ids_distinct
    (input_text company_name cusip_ : string) (w w' : W)
    (res : list (Entry vector)) :
  create_text_embedding_entries_ input_text company_name cusip_ w
  = (Ok res, w') ->
  Forall (fun r => companyName r = company_name /\ cusip r = cusip_) res /\
  NoDup (map seqId res) /\
  NoDup (map contextId res).
Proof.
  clear form10k. intros H.
  apply create_text_embedding_entries_inv in H as (vss & _ & Hall & ->).
  pose proof (zip_batches_fields company_name cusip_
                (chunks (split_text input_text) default_n) vss (-1)) as Hf.
  assert (Hseq : NoDup (map seqId
                   (zip_batches company_name cusip_ (-1)
                      (chunks (split_text input_text) default_n) vss))).
  { rewrite (zip_batches_seqId _ _ _ vss (-1) 0 Hall) by reflexivity.
    apply Finite.Injective_map_NoDup; [| apply seq_NoDup].
    intros a b. apply Nat2Z.inj. }
  split; [| split; [exact Hseq |]].
  - eapply Forall_impl; [| exact Hf]. cbn. tauto.
  - assert (E : map contextId
                  (zip_batches company_name cusip_ (-1)
                     (chunks (split_text input_text) default_n) vss)
                = map (fun z => (company_name ++ str z)%string)
                    (map seqId
                       (zip_batches company_name cusip_ (-1)
                          (chunks (split_text input_text) default_n) vss))).
    { rewrite map_map. apply map_ext_in. intros r Hr.
      rewrite Forall_forall in Hf. now destruct (Hf r Hr) as (_ & _ & ->). }
    rewrite E. apply Finite.Injective_map_NoDup; [| exact Hseq].
    intros a b Hab. apply str_injective. eapply append_injective, Hab.
Qed.

(** X9. The loop over the files skips every file without [.txt] in its
    name: with such files removed from the list, the loop returns the same
    count and records, or raises the same exception, and leaves the same
    world. *)
Theorem embed_files_skips_other_files (fs : list string)
    (st : Z * list (Entry vector)) (w : W) :
  embed_files_ fs st w = embed_files_ (filter (contains ".txt") fs) st w.
Proof.
  revert st w. induction fs as [| f fs IH]; intros st w; [reflexivity |].
  cbn [filter]. destruct (contains ".txt" f) eqn:E.
  - rewrite !embed_files_cons, E.
    destruct (create_text_embedding_entries_ _ _ _ w) as [[es | e] w1];
      [apply IH | reflexivity].
  - rewrite embed_files_cons, E. apply IH.
Qed.

(** X10. Only the first five names of the directory listing are read: what
    follows them changes neither the records, nor the world, nor the
    result of the notebook. *)
Theorem only_first_five_files (listing more : list string)
    (g : Graph vector) (w : W) :
  5 <= List.length listing ->
  embedding_entries_ (listing ++ more) w = embedding_entries_ listing w /\
  notebook_ (listing ++ more) g w = notebook_ listing g w.
Proof.
  intros H.
  assert (E : file_names (listing ++ more) = file_names listing).
  { unfold file_names, slice. cbn [skipn]. rewrite firstn_app.
    replace (5 - 0 - List.length listing) with 0 by lia.
    cbn [firstn]. apply app_nil_r. }
  unfold notebook, embedding_entries. now rewrite E.
Qed.

(** X11. When the run returns, its records are those of the files with
    [.txt] in their name among the first five, in the order of the listing:
    the texts are the chunks of each filing in order, the sequence ids
    start again at 0 for each filing, and every record carries the cusip
    and the company name of its filing. *)
Theorem run_records_by_file (listing : list string) (w w' : W)
    (es : list (Entry vector)) :
  embedding_entries_ listing w = (Ok es, w') ->
  let fs := filter (contains ".txt") (file_names listing) in
  let chunks_of f := split_text (item1 (form10k f)) in
  map text es = flat_map chunks_of fs /\
  map seqId es
  = flat_map (fun f => map Z.of_nat (seq 0 (List.length (chunks_of f)))) fs /\
  map cusip es
  = flat_map (fun f => repeat (f10k_cusip (form10k f))
                         (List.length (chunks_of f))) fs /\
  map companyName es
  = flat_map (fun f => repeat (f10k_companyName (form10k f))
                         (List.length (chunks_of f))) fs.
Proof.
  unfold embedding_entries, bind, ret. intros H. cbv zeta.
  destruct (embed_files_ (file_names listing) (0%Z, []) w)
    as [[st | e] w1] eqn:E; [| discriminate].
  injection H as <- <-.
  apply embed_files_inv in E as (ess & -> & Hall). cbn [snd app].
  assert (Hres : forall f res, embedded_as_ f res ->
            exists vss,
              Forall2 (fun d vs => List.length d <= List.length vs)
                (chunks (split_text (item1 (form10k f))) default_n) vss /\
              res = zip_batches (f10k_companyName (form10k f))
                      (f10k_cusip (form10k f)) (-1)
                      (chunks (split_text (item1 (form10k f))) default_n)
                      vss).
  { intros f res (w1' & w2' & Hc).
    apply create_text_embedding_entries_inv in Hc as (vss & _ & Hf & ->).
    now exists vss. }
  assert (Hlen : forall f res, embedded_as_ f res ->
            List.length res = List.length (split_text (item1 (form10k f)))).
  { intros f res Hf. destruct (Hres f res Hf) as (vss & Hv & ->).
    rewrite <- (length_map text), zip_batches_text by exact Hv.
    now rewrite concat_chunks. }
  repeat split.
  - apply (map_concat_Forall2 text _ embedded_as_); [| exact Hall].
    intros f res Hf. destruct (Hres f res Hf) as (vss & Hv & ->).
    rewrite zip_batches_text by exact Hv. apply concat_chunks.
  - apply (map_concat_Forall2 seqId _ embedded_as_); [| exact Hall].
    intros f res Hf. destruct (Hres f res Hf) as (vss & Hv & ->).
    rewrite (zip_batches_seqId _ _ _ vss (-1) 0 Hv) by reflexivity.
    now rewrite concat_chunks.
  - apply (map_concat_Forall2 cusip _ embedded_as_); [| exact Hall].
    intros f res Hf. rewrite <- (Hlen f res Hf). apply map_constant.
    destruct (Hres f res Hf) as (vss & Hv & ->).
    eapply Forall_impl; [| apply zip_batches_fields]. cbn. tauto.
  - apply (map_concat_Forall2 companyName _ embedded_as_); [| exact Hall].
    intros f res Hf. rewrite <- (Hlen f res Hf). apply map_constant.
    destruct (Hres f res Hf) as (vss & Hv & ->).
    eapply Forall_impl; [| apply zip_batches_fields]. cbn. tauto.
Qed.

End EmbedderMore.

(** ** The upsert loop: what it writes and what it leaves *)

Section GraphMore.

Context {vector : Type}.
Implicit Types (g h : Graph vector) (record : Entry vector) (c : Company).

Lemma merge_id_inv (ids : list string) (id x : string) :
  In x (merge_id ids id) -> In x ids \/ x = id.
Proof.
  unfold merge_id. destruct (existsb _ ids); [tauto |].
  intros H. apply in_app_or in H as [H | [H | []]]; auto.
Qed.

Lemma merge_ids_inv (xs ids : list string) (x : string) :
  In x (fold_left merge_id xs ids) -> In x ids \/ In x xs.
Proof.
  revert ids. induction xs as [| y xs IH]; intros ids H; [now left |].
  cbn in H. apply IH in H as [H | H]; [| right; now right].
  apply merge_id_inv in H as [H | ->]; [now left | right; now left].
Qed.

(** X12. After the upsert loop the store has a document id exactly when it
    had it before or it is the synthetic id of a record whose cusip some
    Company node has. *)
Theorem document_ids_after_load (emb_entries : list (Entry vector)) g
    (id : string) :
  In id (document_ids (graph (upsert_loop emb_entries g))) <->
  In id (document_ids g) \/
  exists record, In record emb_entries /\ matched g record = true /\
                 contextId record = id.
Proof.
  rewrite upsert_loop_document_ids. split.
  - intros H. apply merge_ids_inv in H as [H | H]; [now left | right].
    apply in_map_iff in H as (r & Hid & Hr). apply filter_In in Hr as [Hr Hm].
    now exists r.
  - intros [H | (r & Hr & Hm & <-)].
    + now apply merge_ids_incl.
    + apply merge_ids_in, in_map, filter_In. now split.
Qed.

(** X13. The batches do not show in the graph.  Sending the records in any
    batches, of any sizes, gives the graph the loop gives for their
    concatenation; and loading [xs + ys] gives the graph of loading [xs]
    and then [ys]. *)
Theorem batching_is_transparent (xs ys : list (Entry vector))
    (batches : list (list (Entry vector))) g :
  graph (upsert_batches batches
           {| graph := g; round_trips := []; count := 0%Z |})
  = graph (upsert_loop (concat batches) g) /\
  graph (upsert_loop (xs ++ ys) g)
  = graph (upsert_loop ys (graph (upsert_loop xs g))).
Proof.
  split.
  - rewrite upsert_batches_graph, upsert_loop_graph. reflexivity.
  - rewrite !upsert_loop_graph, match_rows_app, fold_left_app.
    f_equal. symmetry. apply match_rows_companies, rows_companies.
Qed.

(** X14. When the loop ends, [count] is the number of records: the last
    progress message reads "loaded N of N". *)
Theorem count_reaches_total (emb_entries : list (Entry vector)) g :
  count (upsert_loop emb_entries g) = Z.of_nat (List.length emb_entries).
Proof.
  unfold upsert_loop. rewrite upsert_batches_count, concat_chunks.
  reflexivity.
Qed.

(** *** Relationships *)

Lemma merge_has_NoDup g c (b : nat) :
  NoDup (has g) -> NoDup (has (merge_has g c b)).
Proof.
  intros H. unfold merge_has. destruct (existsb _ (has g)) eqn:E; [exact H |].
  cbn. apply NoDup_app; [exact H | repeat constructor; intros [] |].
  intros a Ha [<- | []].
  assert (existsb (fun r => Nat.eqb (fst r) (c_id c) && Nat.eqb (snd r) b)
            (has g) = true); [| congruence].
  apply existsb_exists. exists (c_id c, b). split; [exact Ha |]. cbn.
  now rewrite !Nat.eqb_refl.
Qed.

Lemma upsert_row_has_NoDup g (row : Entry vector * Company) :
  NoDup (has g) -> NoDup (has (upsert_row_graph g row)).
Proof.
  intros H. unfold upsert_row_graph, upsert_row. destruct row as [record c].
  destruct (merge_document g (contextId record)) as [g1 bs] eqn:E. cbn.
  pose proof (merge_document_frame g (contextId record)) as (_ & Mh & _).
  rewrite E in Mh. cbn in Mh. rewrite <- Mh in H. clear E Mh.
  revert g1 H. induction bs as [| b bs IH]; intros g1 H; [exact H |].
  cbn. apply IH, merge_has_NoDup.
  now destruct (set_properties_frame g1 b record) as (_ & -> & _).
Qed.

(** X15. The loop keeps the uniqueness the store was set up with: when no
    two documents of the store share a document id, none do after the
    load (the node key constraint on [documentId] is never violated); when
    no [HAS] relationship is there twice, none is after the load. *)
Theorem load_keeps_uniqueness (emb_entries : list (Entry vector)) g :
  (NoDup (document_ids g) ->
   NoDup (document_ids (graph (upsert_loop emb_entries g)))) /\
  (NoDup (has g) -> NoDup (has (graph (upsert_loop emb_entries g)))).
Proof.
  split; intros H.
  - rewrite upsert_loop_document_ids. now apply merge_ids_NoDup.
  - rewrite upsert_loop_graph.
    generalize (match_rows g emb_entries) as rows. intros rows.
    revert g H. induction rows as [| row rows IH]; intros g H; [exact H |].
    cbn. apply IH, upsert_row_has_NoDup, H.
Qed.
(** *** One row on a well-formed store *)

Lemma NoDup_map_inj {A B : Type} (f : A -> B) (l : list A) (a b : A) :
  NoDup (map f l) -> In a l -> In b l -> f a = f b -> a = b.
Proof.
  induction l as [| x l IH]; intros Hnd Ha Hb Hf; [destruct Ha |].
  cbn in Hnd. inversion Hnd as [| ? ? Hx Hnd']; subst.
  destruct Ha as [-> | Ha], Hb as [-> | Hb]; try reflexivity.
  - exfalso. apply Hx. rewrite Hf. now apply in_map.
  - exfalso. apply Hx. rewrite <- Hf. now apply in_map.
  - now apply IH.
Qed.

Lemma merge_document_present g (id : string) :
  In id (document_ids g) ->
  merge_document g id
  = (g, map d_id
          (filter (fun b => String.eqb (documentId b) id) (documents g))).
Proof.
  intros H. apply in_map_iff in H as (d & Hid & Hd).
  unfold merge_document.
  destruct (filter _ (documents g)) as [| b found] eqn:E; [| reflexivity].
  assert (In d []) as []. rewrite <- E. apply filter_In.
  split; [exact Hd | now apply String.eqb_eq].
Qed.

Lemma merge_document_absent g (id : string) :
  ~ In id (document_ids g) ->
  merge_document g id
  = ({| companies := companies g;
        documents := documents g ++ [new_document (next_id g) id];
        has := has g;
        next_id := S (next_id g) |},
     [next_id g]).
Proof.
  intros H. unfold merge_document.
  destruct (filter _ (documents g)) as [| b found] eqn:E; [reflexivity |].
  exfalso. apply H.
  assert (Hb : In b (filter (fun b => String.eqb (documentId b) id)
                       (documents g))) by (rewrite E; now left).
  apply filter_In in Hb as [Hb Heq]. apply String.eqb_eq in Heq.
  apply in_map_iff. now exists b.
Qed.

(** [MERGE] binds exactly the documents with the id. *)
Lemma merge_document_binds g (id : string) :
  snd (merge_document g id)
  = map d_id (filter (fun b => String.eqb (documentId b) id)
                (documents (fst (merge_document g id)))).
Proof.
  destruct (in_dec string_dec id (document_ids g)) as [H | H].
  - now rewrite merge_document_present.
  - rewrite merge_document_absent by exact H. cbn.
    rewrite filter_app. cbn. rewrite String.eqb_refl.
    replace (filter _ (documents g)) with (@nil (Document vector));
      [reflexivity |].
    symmetry. destruct (filter _ (documents g)) as [| b found] eqn:E;
      [reflexivity |].
    exfalso. apply H.
    assert (Hb : In b (filter (fun b => String.eqb (documentId b) id)
                         (documents g))) by (rewrite E; now left).
    apply filter_In in Hb as [Hb Heq]. apply String.eqb_eq in Heq.
    apply in_map_iff. now exists b.
Qed.

Lemma merge_document_well_formed g (id : string) :
  well_formed g -> well_formed (fst (merge_document g id)).
Proof.
  intros [Hnd Hlt].
  destruct (in_dec string_dec id (document_ids g)) as [H | H].
  - rewrite merge_document_present by exact H. now split.
  - rewrite merge_document_absent by exact H. cbn. split; cbn.
    + rewrite map_app. cbn. apply NoDup_app; [exact Hnd | |].
      * repeat constructor. intros [].
      * intros n Hn [<- | []]. apply in_map_iff in Hn as (b & Hb & Hin).
        rewrite Forall_forall in Hlt. specialize (Hlt b Hin). lia.
    + apply Forall_app. split.
      * eapply Forall_impl; [| exact Hlt]. cbn. intros b Hb. lia.
      * repeat constructor.
Qed.

Lemma merge_document_incl g (id : string) :
  incl (documents g) (documents (fst (merge_document g id))).
Proof.
  destruct (in_dec string_dec id (document_ids g)) as [H | H].
  - rewrite merge_document_present by exact H. apply incl_refl.
  - rewrite merge_document_absent by exact H. cbn.
    apply incl_appl, incl_refl.
Qed.

Lemma set_document_twice (r r' : Entry vector) (b : Document vector) :
  set_document r (set_document r' b) = set_document r b.
Proof. reflexivity. Qed.

Lemma bound_nodes_documents record c (bs : list nat) g :
  let g' := fold_left
              (fun g b => merge_has (set_properties g b record) c b) bs g in
  documents g'
  = map (fun d => if existsb (Nat.eqb (d_id d)) bs
                  then set_document record d else d) (documents g) /\
  next_id g' = next_id g.
Proof.
  revert g. induction bs as [| b bs IH]; intros g; cbn.
  - split; [| reflexivity]. symmetry. apply map_id.
  - destruct (IH (merge_has (set_properties g b record) c b)) as [Hd Hn].
    cbn in Hd, Hn. rewrite Hd, Hn.
    destruct (merge_has_frame (set_properties g b record) c b)
      as (_ & -> & _ & _).
    split.
    + cbn. rewrite map_map. apply map_ext. intros d.
      destruct (Nat.eqb (d_id d) b) eqn:E; cbn.
      * destruct (existsb _ bs); reflexivity.
      * reflexivity.
    + unfold merge_has. destruct (existsb _ _); reflexivity.
Qed.

Lemma existsb_ids_filter (p : Document vector -> bool)
    (docs : list (Document vector)) (d : Document vector) :
  NoDup (map d_id docs) -> In d docs ->
  existsb (Nat.eqb (d_id d)) (map d_id (filter p docs)) = p d.
Proof.
  intros Hnd Hd. destruct (p d) eqn:E.
  - apply existsb_exists. exists (d_id d). split; [| apply Nat.eqb_refl].
    apply in_map, filter_In. now split.
  - destruct (existsb _ _) eqn:Ex; [| reflexivity].
    apply existsb_exists in Ex as (n & Hn & Heq). apply Nat.eqb_eq in Heq.
    apply in_map_iff in Hn as (d' & Hid & Hd').
    apply filter_In in Hd' as [Hd' Hp].
    assert (d' = d) by (apply (NoDup_map_inj d_id docs); congruence).
    congruence.
Qed.

(** On a well-formed store, a row overwrites the documents with the
    record's id and no other. *)
Lemma upsert_row_documents g record c :
  well_formed g ->
  documents (upsert_row_graph g (record, c))
  = map (overwrite record)
      (documents (fst (merge_document g (contextId record)))) /\
  next_id (upsert_row_graph g (record, c))
  = next_id (fst (merge_document g (contextId record))).
Proof.
  intros Hwf.
  pose proof (merge_document_well_formed g (contextId record) Hwf)
    as [Hnd _].
  pose proof (merge_document_binds g (contextId record)) as Hbs.
  unfold upsert_row_graph, upsert_row.
  destruct (merge_document g (contextId record)) as [g1 bs]. cbn in *.
  destruct (bound_nodes_documents record c bs g1) as [Hd Hn].
  rewrite Hd, Hn. split; [| reflexivity].
  apply map_ext_in. intros d Hin. unfold overwrite. subst bs.
  now rewrite existsb_ids_filter.
Qed.

Lemma overwrite_d_id record (b : Document vector) :
  d_id (overwrite record b) = d_id b.
Proof. unfold overwrite. destruct (String.eqb _ _); reflexivity. Qed.

Lemma overwrite_documentId record (b : Document vector) :
  documentId (overwrite record b) = documentId b.
Proof. unfold overwrite. destruct (String.eqb _ _); reflexivity. Qed.

Lemma upsert_row_well_formed g (row : Entry vector * Company) :
  well_formed g -> well_formed (upsert_row_graph g row).
Proof.
  intros Hwf. destruct row as [record c].
  destruct (upsert_row_documents g record c Hwf) as [Hd Hn].
  destruct (merge_document_well_formed g (contextId record) Hwf)
    as [Hnd Hlt].
  unfold well_formed. rewrite Hd, Hn, map_map. split.
  - erewrite map_ext; [exact Hnd |]. apply overwrite_d_id.
  - apply Forall_map. eapply Forall_impl; [| exact Hlt]. cbn.
    intros b Hb. now rewrite overwrite_d_id.
Qed.

Lemma rows_well_formed (rows : list (Entry vector * Company)) g :
  well_formed g -> well_formed (fold_left upsert_row_graph rows g).
Proof.
  revert g. induction rows as [| row rows IH]; intros g H; [exact H |].
  cbn. apply IH, upsert_row_well_formed, H.
Qed.

(** *** The last record of an id *)

Lemma last_record_snoc (rs : list (Entry vector)) record (id : string) :
  last_record (rs ++ [record]) id
  = if String.eqb (contextId record) id then Some record
    else last_record rs id.
Proof. unfold last_record. now rewrite fold_left_app. Qed.

Lemma last_record_in (rs : list (Entry vector)) record (id : string) :
  last_record rs id = Some record -> In record rs /\ contextId record = id.
Proof.
  induction rs as [| r rs IH] using rev_ind; [discriminate |].
  rewrite last_record_snoc. destruct (String.eqb (contextId r) id) eqn:E.
  - intros H. injection H as <-. apply String.eqb_eq in E.
    split; [apply in_or_app; right; now left | exact E].
  - intros H. destruct (IH H) as [Hin Hid].
    split; [apply in_or_app; now left | exact Hid].
Qed.

Lemma last_record_none (rs : list (Entry vector)) (id : string) :
  (forall record, In record rs -> contextId record <> id) ->
  last_record rs id = None.
Proof.
  intros H. destruct (last_record rs id) as [r |] eqn:E; [| reflexivity].
  apply last_record_in in E as [Hin Hid]. now destruct (H r Hin).
Qed.

(** The last row of an id carries the last matched record of that id. *)
Lemma last_record_rows g (rs : list (Entry vector)) (id : string) :
  last_record (map fst (match_rows g rs)) id
  = last_record (filter (matched g) rs) id.
Proof.
  unfold last_record. generalize (@None (Entry vector)) as found.
  induction rs as [| r rs IH]; intros found; [reflexivity |].
  change (match_rows g (r :: rs))
    with (map (pair r) (match_company g r) ++ match_rows g rs).
  rewrite map_app, fold_left_app, map_map. cbn [fst filter].
  destruct (matched g r) eqn:E.
  - cbn [fold_left]. rewrite IH. f_equal.
    assert (Hne : match_company g r <> []).
    { intros Hnil. apply match_company_nil in Hnil. congruence. }
    destruct (match_company g r) as [| c cs]; [congruence |]. cbn.
    induction cs as [| c' cs IHcs]; [reflexivity |]. cbn.
    destruct (String.eqb (contextId r) id); apply IHcs; discriminate.
  - apply match_company_nil in E. rewrite E. cbn. apply IH.
Qed.

Lemma stamp_documentId (rs : list (Entry vector)) (b : Document vector) :
  documentId (stamp rs b) = documentId b /\ d_id (stamp rs b) = d_id b.
Proof. unfold stamp. destruct (last_record rs _); split; reflexivity. Qed.

Lemma overwrite_stamp (rs : list (Entry vector)) record
    (b : Document vector) :
  overwrite record (stamp rs b) = stamp (rs ++ [record]) b.
Proof.
  unfold overwrite. destruct (stamp_documentId rs b) as [-> _].
  unfold stamp. rewrite last_record_snoc, String.eqb_sym.
  destruct (String.eqb (contextId record) (documentId b)); [| reflexivity].
  destruct (last_record rs (documentId b)); reflexivity.
Qed.

(** On a well-formed store, after the rows, a document whose id some row
    carries holds the properties of the last such row, and a document
    whose id no row carries is a document of the store before. *)
Lemma rows_stamped (rows : list (Entry vector * Company)) g :
  well_formed g ->
  forall d, In d (documents (fold_left upsert_row_graph rows g)) ->
    match last_record (map fst rows) (documentId d) with
    | Some record => set_document record d = d
    | None => In d (documents g)
    end.
Proof.
  intros Hwf. induction rows as [| [r c] rows IH] using rev_ind;
    intros d Hd; [exact Hd |].
  rewrite fold_left_app in Hd. cbn [fold_left] in Hd.
  pose proof (rows_well_formed rows g Hwf) as Hwf'.
  set (g' := fold_left upsert_row_graph rows g) in *.
  destruct (upsert_row_documents g' r c Hwf') as [Hdocs _].
  rewrite Hdocs in Hd. apply in_map_iff in Hd as (d0 & <- & Hd0).
  rewrite map_app. cbn [map fst]. rewrite last_record_snoc.
  rewrite overwrite_documentId. unfold overwrite.
  rewrite (String.eqb_sym (documentId d0)).
  destruct (String.eqb (contextId r) (documentId d0)) eqn:E;
    [reflexivity |].
  apply IH.
  destruct (in_dec string_dec (contextId r) (document_ids g')) as [H | H].
  - now rewrite merge_document_present in Hd0 by exact H.
  - rewrite merge_document_absent in Hd0 by exact H. cbn in Hd0.
    apply in_app_or in Hd0 as [Hd0 | [<- | []]]; [exact Hd0 |].
    cbn in E. now rewrite String.eqb_refl in E.
Qed.

Lemma rows_untouched (rows : list (Entry vector * Company)) g
    (d : Document vector) :
  well_formed g -> In d (documents g) ->
  (forall row, In row rows -> contextId (fst row) <> documentId d) ->
  In d (documents (fold_left upsert_row_graph rows g)).
Proof.
  revert g. induction rows as [| [r c] rows IH]; intros g Hwf Hd Hno;
    [exact Hd |].
  cbn. apply IH.
  - now apply upsert_row_well_formed.
  - destruct (upsert_row_documents g r c Hwf) as [-> _].
    apply in_map_iff. exists d. split; [| now apply merge_document_incl].
    unfold overwrite.
    destruct (String.eqb (documentId d) (contextId r)) eqn:E;
      [| reflexivity].
    apply String.eqb_eq in E. exfalso.
    apply (Hno (r, c)); [now left | now symmetry].
  - intros row Hrow. apply Hno. now right.
Qed.

(** X16. On a store whose document nodes have ids of their own: after the
    load, for the last record with a given synthetic id among the records
    whose cusip some Company node has, the store has a document with that
    id, and every document with that id has the type tag
    [FORM_10K_ITEM1] and the sequence id, the vector and the text of that
    record (a later record with the same id overwrites an earlier one). *)
Theorem loaded_documents_hold_last_record
    (emb_entries : list (Entry vector)) g (id : string) record :
  well_formed g ->
  last_record (filter (matched g) emb_entries) id = Some record ->
  (exists b, In b (documents (graph (upsert_loop emb_entries g))) /\
             documentId b = id) /\
  forall b, In b (documents (graph (upsert_loop emb_entries g))) ->
            documentId b = id ->
            documentType b = Some "FORM_10K_ITEM1"%string /\
            d_seqId b = Some (seqId record) /\
            d_textEmbedding b = Some (textEmbedding record) /\
            d_text b = Some (text record).
Proof.
  intros Hwf Hlast. split.
  - apply last_record_in in Hlast as [Hin Hid].
    assert (H : In id (document_ids (graph (upsert_loop emb_entries g)))).
    { rewrite upsert_loop_document_ids. apply merge_ids_in.
      rewrite <- Hid. now apply in_map. }
    apply in_map_iff in H as (b & Hb & Hin'). now exists b.
  - intros b Hb Hid. rewrite upsert_loop_graph in Hb.
    pose proof (rows_stamped _ g Hwf b Hb) as H.
    rewrite last_record_rows, Hid, Hlast in H. rewrite <- H.
    repeat split.
Qed.

(** X17. On such a store the load leaves alone every document whose id is
    the synthetic id of no record with a matching Company node: it is
    there after the load with the properties it had. *)
Theorem other_documents_untouched
    (emb_entries : list (Entry vector)) g (b : Document vector) :
  well_formed g -> In b (documents g) ->
  (forall record, In record emb_entries -> matched g record = true ->
                  contextId record <> documentId b) ->
  In b (documents (graph (upsert_loop emb_entries g))).
Proof.
  intros Hwf Hb Hno. rewrite upsert_loop_graph.
  apply rows_untouched; [exact Hwf | exact Hb |].
  intros [r c] Hrow. cbn. unfold match_rows in Hrow.
  apply in_flat_map in Hrow as (r' & Hr' & Hin).
  apply in_map_iff in Hin as (c' & Heq & Hc'). injection Heq as -> ->.
  apply Hno; [exact Hr' |].
  destruct (matched g r) eqn:E; [reflexivity |].
  apply match_company_nil in E. rewrite E in Hc'. destruct Hc'.
Qed.

(** X18. The load deletes nothing and touches no Company node: the Company
    nodes are the same after it, every document keeps its node and its
    document id, and every [HAS] relationship is kept. *)
Theorem load_never_removes (emb_entries : list (Entry vector)) g :
  companies (graph (upsert_loop emb_entries g)) = companies g /\
  incl (document_keys g)
    (document_keys (graph (upsert_loop emb_entries g))) /\
  incl (has g) (has (graph (upsert_loop emb_entries g))).
Proof.
  rewrite upsert_loop_graph. split; [apply rows_companies |].
  apply rows_extends.
Qed.

(** *** A second load *)

Lemma upsert_row_keys g record c :
  document_keys (upsert_row_graph g (record, c))
  = document_keys (fst (merge_document g (contextId record))).
Proof.
  unfold upsert_row_graph, upsert_row.
  destruct (merge_document g (contextId record)) as [g1 bs]. cbn.
  now destruct (bound_nodes_frame record c bs g1) as (_ & -> & _).
Qed.

Lemma keys_bound g (id : string) (b : nat) :
  In (b, id) (document_keys (fst (merge_document g id))) ->
  In b (snd (merge_document g id)).
Proof.
  rewrite merge_document_binds. unfold document_keys. intros H.
  apply in_map_iff in H as (d & Heq & Hd). injection Heq as <- Hid.
  apply in_map, filter_In. split; [exact Hd | now apply String.eqb_eq].
Qed.

(** After the rows, every document with the id of a row is linked from the
    company of the row. *)
Lemma rows_linked_all (rows : list (Entry vector * Company)) g :
  forall record c (b : nat),
    In (record, c) rows ->
    In (b, contextId record)
      (document_keys (fold_left upsert_row_graph rows g)) ->
    In (c_id c, b) (has (fold_left upsert_row_graph rows g)).
Proof.
  induction rows as [| [r0 c0] rows IH] using rev_ind;
    intros r c b Hin Hk; [destruct Hin |].
  rewrite fold_left_app in *. cbn [fold_left] in *.
  set (g' := fold_left upsert_row_graph rows g) in *.
  rewrite upsert_row_keys in Hk.
  apply in_app_or in Hin as [Hin | [Heq | []]].
  - destruct (upsert_row_extends g' (r0, c0)) as [_ Hh]. apply Hh.
    apply (IH r c b Hin).
    assert (Hpresent : In (contextId r) (document_ids g')).
    { unfold g'. rewrite rows_document_ids. apply merge_ids_in.
      apply in_map_iff. now exists (r, c). }
    destruct (in_dec string_dec (contextId r0) (document_ids g')) as [H | H].
    + now rewrite merge_document_present in Hk by exact H.
    + rewrite merge_document_absent in Hk by exact H.
      unfold document_keys in Hk. cbn in Hk. rewrite map_app in Hk.
      apply in_app_or in Hk as [Hk | [Hk | []]]; [exact Hk |].
      cbn in Hk. injection Hk as _ Hid. rewrite Hid in H. contradiction.
  - injection Heq as -> ->. apply keys_bound in Hk.
    unfold upsert_row_graph, upsert_row.
    destruct (merge_document g' (contextId r)) as [g1 bs]. cbn in *.
    destruct (bound_nodes_frame r c bs g1) as (_ & _ & _ & Hb).
    now apply Hb.
Qed.

Lemma bound_nodes_linked record c (bs : list nat) g :
  (forall b, In b bs -> In (c_id c, b) (has g)) ->
  has (fold_left (fun g b => merge_has (set_properties g b record) c b)
         bs g)
  = has g.
Proof.
  revert g. induction bs as [| b bs IH]; intros g H; [reflexivity |].
  cbn.
  assert (E : has (merge_has (set_properties g b record) c b) = has g).
  { unfold merge_has.
    replace (existsb _ (has (set_properties g b record))) with true;
      [reflexivity |].
    symmetry. apply existsb_exists. exists (c_id c, b). cbn.
    split; [apply H; now left | now rewrite !Nat.eqb_refl]. }
  rewrite IH; [exact E |].
  intros b' Hb'. rewrite E. apply H. now right.
Qed.

(** On a store that has the ids and the relationships of the rows already,
    the rows only write properties. *)
Lemma rows_saturated (rows : list (Entry vector * Company)) h :
  well_formed h ->
  (forall row, In row rows -> In (contextId (fst row)) (document_ids h)) ->
  (forall record c b, In (record, c) rows ->
     In (b, contextId record) (document_keys h) ->
     In (c_id c, b) (has h)) ->
  documents (fold_left upsert_row_graph rows h)
  = map (stamp (map fst rows)) (documents h) /\
  has (fold_left upsert_row_graph rows h) = has h /\
  next_id (fold_left upsert_row_graph rows h) = next_id h.
Proof.
  intros Hwf. induction rows as [| [r c] rows IH] using rev_ind;
    intros Hids Hlinks.
  - cbn. repeat split. symmetry. apply map_id.
  - destruct IH as (Hd & Hh & Hn).
    { intros row Hrow. apply Hids, in_or_app. now left. }
    { intros r' c' b Hrow. apply Hlinks, in_or_app. now left. }
    rewrite fold_left_app. cbn [fold_left].
    pose proof (rows_well_formed rows h Hwf) as Hwf'.
    set (h' := fold_left upsert_row_graph rows h) in *.
    assert (Hkeys : document_keys h' = document_keys h).
    { unfold document_keys. rewrite Hd, map_map. apply map_ext. intros d.
      now destruct (stamp_documentId (map fst rows) d) as [-> ->]. }
    assert (Hpresent : In (contextId r) (document_ids h')).
    { rewrite document_ids_keys, Hkeys, <- document_ids_keys.
      apply (Hids (r, c)), in_or_app. right. now left. }
    destruct (upsert_row_documents h' r c Hwf') as [Hdocs Hnext].
    rewrite merge_document_present in Hdocs, Hnext by exact Hpresent.
    cbn [fst] in Hdocs, Hnext.
    split; [| split].
    + rewrite Hdocs, Hd, map_map, map_app. cbn [map fst].
      apply map_ext. intros d. apply overwrite_stamp.
    + unfold upsert_row_graph, upsert_row.
      pose proof (keys_bound h' (contextId r)) as Hb.
      rewrite merge_document_present in * by exact Hpresent.
      cbn [fst snd] in *. rewrite bound_nodes_linked; [exact Hh |].
      intros b Hin. rewrite Hh. apply (Hlinks r c b).
      * apply in_or_app. right. now left.
      * rewrite <- Hkeys. unfold document_keys.
        apply in_map_iff in Hin as (d & <- & Hd').
        apply filter_In in Hd' as [Hd' Heq]. apply String.eqb_eq in Heq.
        apply in_map_iff. exists d. split; [now rewrite Heq | exact Hd'].
    + now rewrite Hnext.
Qed.

Lemma graph_ext g h :
  companies g = companies h -> documents g = documents h ->
  has g = has h -> next_id g = next_id h -> g = h.
Proof. destruct g, h. cbn. now intros -> -> -> ->. Qed.

(** X19. On a store whose document nodes have ids of their own, a second
    load of the same records changes nothing at all: the graph after it,
    with every node, property and relationship, is the graph after the
    first. *)
Theorem second_load_changes_nothing
    (emb_entries : list (Entry vector)) g :
  well_formed g ->
  graph (upsert_loop emb_entries (graph (upsert_loop emb_entries g)))
  = graph (upsert_loop emb_entries g).
Proof.
  intros Hwf.
  rewrite (upsert_loop_graph emb_entries (graph (upsert_loop emb_entries g))).
  rewrite (match_rows_companies g (graph (upsert_loop emb_entries g)))
    by apply upsert_loop_companies.
  rewrite upsert_loop_graph.
  set (rows := match_rows g emb_entries).
  set (g1 := fold_left upsert_row_graph rows g).
  pose proof (rows_well_formed rows g Hwf) as Hwf1. fold g1 in Hwf1.
  destruct (rows_saturated rows g1 Hwf1) as (Hd & Hh & Hn).
  - intros row Hrow. unfold g1. rewrite rows_document_ids.
    apply merge_ids_in.
    apply (in_map (fun row => contextId (fst row))), Hrow.
  - intros r c b Hrow Hk. now apply (rows_linked_all rows g r c b).
  - apply graph_ext; [apply rows_companies | | exact Hh | exact Hn].
    rewrite Hd. rewrite <- (map_id (documents g1)) at 2.
    apply map_ext_in. intros d Hin. unfold stamp.
    pose proof (rows_stamped rows g Hwf d Hin) as H.
    destruct (last_record (map fst rows) (documentId d)); [exact H |].
    reflexivity.
Qed.

(** *** Reading the load back *)

Lemma has_documents_in g c (b : Document vector) :
  In b (has_documents g c) <->
  In b (documents g) /\ In (c_id c, d_id b) (has g).
Proof.
  unfold has_documents. rewrite in_flat_map. split.
  - intros ([x y] & Hr & Hin). cbn in Hin.
    destruct (Nat.eqb x (c_id c)) eqn:E; [| destruct Hin].
    apply Nat.eqb_eq in E. apply filter_In in Hin as [Hin Heq].
    apply Nat.eqb_eq in Heq. subst. now split.
  - intros [Hb Hh]. exists (c_id c, d_id b). split; [exact Hh |]. cbn.
    rewrite Nat.eqb_refl. apply filter_In. split; [exact Hb |].
    apply Nat.eqb_refl.
Qed.

Lemma linked_has_documents g c (id : string) :
  linked g c id <-> exists b, In b (has_documents g c) /\ documentId b = id.
Proof.
  unfold linked. split.
  - intros (b & Hb & Hid & Hh). exists b. split; [| exact Hid].
    now apply has_documents_in.
  - intros (b & Hb & Hid). apply has_documents_in in Hb as [Hb Hh].
    now exists b.
Qed.

Lemma loop_linked (emb_entries : list (Entry vector)) g record c :
  In record emb_entries -> In c (companies g) ->
  c_cusip c = cusip record ->
  linked (graph (upsert_loop emb_entries g)) c (contextId record).
Proof.
  intros Hr Hc Heq. rewrite upsert_loop_graph.
  apply rows_linked. now apply match_rows_in.
Qed.

(** X20. What the load writes, the query of [emb_df] reads back.  On a
    store whose document nodes have ids of their own, for a record that is
    the last of its synthetic id among the matched records, and a Company
    node with the record's cusip, the rows of
    [MATCH (c:Company)-[:HAS]->(n:Document)] after the load have the row
    of the company's name, the record's synthetic id, its text and its
    vector; [emb_df] has that row when the rows are at most the 1000 of
    the [LIMIT]. *)
Theorem loaded_records_read_back
    (emb_entries : list (Entry vector)) g record c :
  well_formed g ->
  In record emb_entries -> In c (companies g) ->
  c_cusip c = cusip record ->
  last_record (filter (matched g) emb_entries) (contextId record)
  = Some record ->
  let g' := graph (upsert_loop emb_entries g) in
  In (c_companyName c, contextId record, Some (text record),
      Some (textEmbedding record)) (has_rows g') /\
  (List.length (has_rows g') <= 1000 ->
   In (c_companyName c, contextId record, Some (text record),
       Some (textEmbedding record)) (emb_df g')).
Proof.
  intros Hwf Hr Hc Heq Hlast. cbv zeta.
  assert (Hrow : In (c_companyName c, contextId record, Some (text record),
                     Some (textEmbedding record))
                   (has_rows (graph (upsert_loop emb_entries g)))).
  { pose proof (loop_linked emb_entries g record c Hr Hc Heq) as Hl.
    apply linked_has_documents in Hl as (b & Hb & Hid).
    unfold has_rows. apply in_flat_map. exists c. split.
    - now rewrite upsert_loop_companies.
    - apply in_map_iff. exists b. split; [| exact Hb].
      assert (Hin : In b (documents (graph (upsert_loop emb_entries g))))
        by (now apply has_documents_in in Hb).
      assert (Hst : set_document record b = b).
      { rewrite upsert_loop_graph in Hin.
        pose proof (rows_stamped _ g Hwf b Hin) as H.
        now rewrite last_record_rows, Hid, Hlast in H. }
      rewrite <- Hst. cbn. now rewrite Hid. }
  split; [exact Hrow |].
  intros Hlen. unfold emb_df. now rewrite firstn_all2.
Qed.

Lemma list_sum_map_le {A : Type} (f f' : A -> nat) (l : list A) :
  (forall x, In x l -> f x <= f' x) ->
  list_sum (map f l) <= list_sum (map f' l).
Proof.
  induction l as [| x l IH]; intros H; [apply le_n |].
  cbn [map list_sum fold_right].
  assert (f x <= f' x) by (apply H; now left).
  assert (list_sum (map f l) <= list_sum (map f' l))
    by (apply IH; intros y Hy; apply H; now right).
  unfold list_sum in *. lia.
Qed.

Lemma list_sum_indicator_le {A : Type} (p : A -> bool) (l : list A) :
  list_sum (map (fun x => if p x then 1 else 0) l) <= List.length l.
Proof.
  induction l as [| x l IH]; [apply le_n |].
  cbn [map list_sum fold_right List.length]. unfold list_sum in IH.
  destruct (p x); lia.
Qed.

Lemma load_keys_has (emb_entries : list (Entry vector)) g :
  companies (graph (upsert_loop emb_entries g)) = companies g /\
  incl (document_keys g)
    (document_keys (graph (upsert_loop emb_entries g))) /\
  incl (has g) (has (graph (upsert_loop emb_entries g))).
Proof.
  rewrite upsert_loop_graph. split; [apply rows_companies |].
  apply rows_extends.
Qed.

(** X21. The check of the companies with documents, after the load: the
    number of companies is what it was; the number of companies with
    documents has not gone down and is at most the number of companies;
    and every Company node whose cusip some record carries has at least
    one document. *)
Theorem companies_with_documents_after_load
    (emb_entries : list (Entry vector)) g :
  let g' := graph (upsert_loop emb_entries g) in
  total g' = total g /\
  numWithDocs g <= numWithDocs g' /\
  numWithDocs g' <= total g' /\
  forall c record,
    In c (companies g) -> In record emb_entries ->
    c_cusip c = cusip record -> 0 < docCount g' c.
Proof.
  cbv zeta.
  destruct (load_keys_has emb_entries g) as (Hc & Hk & Hh).
  assert (Hpos : forall h c, 0 < docCount h c <->
                   exists b, In b (has_documents h c)).
  { intros h c. unfold docCount. destruct (has_documents h c) as [| b l].
    - cbn. split; [lia | intros [b []]].
    - cbn. split; [intros _; exists b; now left | lia]. }
  assert (Hmono : forall c, 0 < docCount g c ->
                    0 < docCount (graph (upsert_loop emb_entries g)) c).
  { intros c H. apply Hpos in H as (b & Hb). apply Hpos.
    apply has_documents_in in Hb as [Hb Hedge].
    assert (Hkey : In (d_id b, documentId b)
                     (document_keys (graph (upsert_loop emb_entries g)))).
    { apply Hk. unfold document_keys. apply in_map_iff. now exists b. }
    unfold document_keys in Hkey. apply in_map_iff in Hkey as (b' & E & Hb').
    injection E as Eid _. exists b'. apply has_documents_in.
    split; [exact Hb' |]. rewrite Eid. now apply Hh. }
  unfold total, numWithDocs. rewrite Hc.
  split; [reflexivity |]. split; [| split].
  - apply list_sum_map_le. intros c _.
    destruct (Nat.ltb 0 (docCount g c)) eqn:E.
    + apply Nat.ltb_lt, Hmono, Nat.ltb_lt in E. rewrite E. apply le_n.
    + destruct (Nat.ltb 0 _); lia.
  - apply list_sum_indicator_le.
  - intros c r Hin Hr Heq. apply Hpos.
    pose proof (loop_linked emb_entries g r c Hr Hin Heq) as Hl.
    apply linked_has_documents in Hl as (b & Hb & _). now exists b.
Qed.

End GraphMore.

(** ** A listing without filings *)

Section NotebookMore.

Context {W vector : Type}.
Variable split_text : string -> list string.
Variable get_embeddings : list string -> M W (list vector).
Variable sleep : W -> W.
Variable form10k : string -> F10K.


End NotebookMore.

(** ** The further properties at concrete inputs *)

(** X2 with a negative batch size. *)
Lemma chunks_singletons_witness :
  chunks [1; 2; 3] (-4) = [[1]; [2]; [3]].
Proof. apply (chunks_singletons [1; 2; 3] (-4)). lia. Defined.

(** X3 on a list shorter than a batch. *)
Lemma chunks_small_witness : chunks [1; 2] 3 = [[1; 2]].
Proof.
  apply (proj2 (chunks_small [1; 2] 3)); [discriminate | cbn; lia].
Defined.

(** X4 on a list cut after two batches of two. *)
Lemma chunks_app_witness :
  chunks ([1; 2; 3; 4] ++ [5]) 2 = chunks [1; 2; 3; 4] 2 ++ chunks [5] 2.
Proof. apply (chunks_app [1; 2; 3; 4] [5] 2 2). reflexivity. Defined.

(** X5 on the empty text. *)
Lemma no_chunk_no_call_witness :
  fox_split "" = [] /\
  create_text_embedding_entries fox_split quota_model no_sleep
    "" "Acme" "C1" 7 = (Ok [], 7).
Proof.
  split; [reflexivity |].
  apply (no_chunk_no_call fox_split quota_model no_sleep "" "Acme" "C1" 7).
  reflexivity.
Defined.

(** X6 on the model that forgets the last text of a batch. *)
Lemma too_few_vectors_raise_IndexError_witness :
  create_text_embedding_entries fox_split short_model no_sleep
    fox_text "Acme" "C1" 0 = (Raise IndexError, 1).
Proof.
  apply (too_few_vectors_raise_IndexError fox_split short_model no_sleep
           fox_text "Acme" "C1" []
           [[" bro"; "own "; " fox"]; ["x ju"; "umps"]]%string
           ["the "; " qui"; "ick "]%string [[4%Z]; [4%Z]]
           ((-1)%Z, []) 0 0 1).
  - reflexivity.
  - reflexivity.
  - reflexivity.
  - cbn. lia.
Defined.

(** X7 on the short text. *)
Lemma returns_only_if_answered_witness :
  exists res,
    create_text_embedding_entries fox_split length_model no_sleep
      fox_text "Acme" "C1" 0 = (Ok res, 3) /\
    exists vss,
      transcript length_model no_sleep
        (chunks (fox_split fox_text) default_n) 0 = (Ok vss, 3) /\
      Forall2 (fun d vs => 1 <= List.length d <= 3 /\
                           List.length d <= List.length vs)
        (chunks (fox_split fox_text) default_n) vss /\
      List.length vss = ceil_div (List.length (fox_split fox_text)) 3 /\
      List.length res = List.length (fox_split fox_text).
Proof.
  eexists. split; [vm_compute; reflexivity |].
  apply (returns_only_if_answered fox_split length_model no_sleep
           fox_text "Acme" "C1" 0 3).
  vm_compute. reflexivity.
Defined.

(** X8 on the short text. *)
Lemma one_filing_ids_distinct_witness :
  exists res,
    create_text_embedding_entries fox_split length_model no_sleep
      fox_text "Acme" "C1" 0 = (Ok res, 3) /\
    Forall (fun r => companyName r = "Acme"%string /\
                     cusip r = "C1"%string) res /\
    NoDup (map seqId res) /\
    NoDup (map contextId res).
Proof.
  eexists. split; [vm_compute; reflexivity |].
  apply (one_filing_ids_distinct fox_split length_model no_sleep
           fox_text "Acme" "C1" 0 3).
  vm_compute. reflexivity.
Defined.

(** X10 on a listing of seven names. *)
Lemma only_first_five_files_witness :
  embedding_entries (window_split 3 0) length_model no_sleep two_archive
    (["a.txt"; "b.txt"; "c"; "d"; "e"]%string ++ ["b.txt"; "a.txt"]%string) 0
  = embedding_entries (window_split 3 0) length_model no_sleep two_archive
      ["a.txt"; "b.txt"; "c"; "d"; "e"]%string 0 /\
  notebook (window_split 3 0) length_model no_sleep two_archive
    (["a.txt"; "b.txt"; "c"; "d"; "e"]%string ++ ["b.txt"; "a.txt"]%string)
    acme_graph 0
  = notebook (window_split 3 0) length_model no_sleep two_archive
      ["a.txt"; "b.txt"; "c"; "d"; "e"]%string acme_graph 0.
Proof.
  apply (only_first_five_files (window_split 3 0) length_model no_sleep
           two_archive ["a.txt"; "b.txt"; "c"; "d"; "e"]%string
           ["b.txt"; "a.txt"]%string acme_graph 0).
  cbn. lia.
Defined.

(** X11 on two filings. *)
Lemma run_records_by_file_witness :
  exists es,
    embedding_entries (window_split 3 0) length_model no_sleep two_archive
      ["b.txt"; "notes"; "a.txt"]%string 0 = (Ok es, 5) /\
    map seqId es = [0; 0; 1; 2; 3; 4; 5; 6; 7; 8; 9; 10; 11]%Z /\
    map cusip es = ("C2" :: repeat "C1" 12)%string.
Proof.
  eexists. split; [vm_compute; reflexivity |].
  pose proof (run_records_by_file (window_split 3 0) length_model no_sleep
                two_archive ["b.txt"; "notes"; "a.txt"]%string 0 5 _
                ltac:(vm_compute; reflexivity)) as H.
  cbv zeta in H. destruct H as (_ & Hseq & Hcusip & _).
  split; [exact Hseq | exact Hcusip].
Defined.

(** X15 on the store that knows Acme only. *)
Lemma load_keeps_uniqueness_witness :
  NoDup (document_ids
           (graph (upsert_loop
                     [acme_entry 0 "a"; stray_entry; acme_entry 0 "b"]
                     acme_graph))) /\
  NoDup (has (graph (upsert_loop
                       [acme_entry 0 "a"; stray_entry; acme_entry 0 "b"]
                       acme_graph))).
Proof.
  split.
  - apply (proj1 (load_keeps_uniqueness
                    [acme_entry 0 "a"; stray_entry; acme_entry 0 "b"]
                    acme_graph)).
    constructor.
  - apply (proj2 (load_keeps_uniqueness
                    [acme_entry 0 "a"; stray_entry; acme_entry 0 "b"]
                    acme_graph)).
    constructor.
Defined.

Lemma acme_graph_well_formed : well_formed acme_graph.
Proof. split; constructor. Defined.

Lemma stocked_graph_well_formed : well_formed stocked_graph.
Proof.
  split; cbn.
  - repeat constructor. intros [].
  - repeat constructor.
Defined.

(** X16 on two records with the same synthetic id: the second wins. *)
Lemma loaded_documents_hold_last_record_witness :
  let g' := graph (upsert_loop
                     [acme_entry 0 "a"; stray_entry; acme_entry 0 "bb"]
                     acme_graph) in
  (exists b, In b (documents g') /\ documentId b = "Acme0"%string) /\
  forall b, In b (documents g') -> documentId b = "Acme0"%string ->
            documentType b = Some "FORM_10K_ITEM1"%string /\
            d_seqId b = Some 0%Z /\
            d_textEmbedding b = Some [2%Z] /\
            d_text b = Some "bb"%string.
Proof.
  apply (loaded_documents_hold_last_record
           [acme_entry 0 "a"; stray_entry; acme_entry 0 "bb"]
           acme_graph "Acme0" (acme_entry 0 "bb")).
  - exact acme_graph_well_formed.
  - reflexivity.
Defined.

(** X17 on the store with a document loaded before. *)
Lemma other_documents_untouched_witness :
  In old_document
    (documents (graph (upsert_loop [acme_entry 0 "a"; acme_entry 1 "b"]
                         stocked_graph))).
Proof.
  apply (other_documents_untouched [acme_entry 0 "a"; acme_entry 1 "b"]
           stocked_graph old_document).
  - exact stocked_graph_well_formed.
  - left. reflexivity.
  - intros r [<- | [<- | []]] _; discriminate.
Defined.

(** X19 on the store with a document loaded before. *)
Lemma second_load_changes_nothing_witness :
  graph (upsert_loop [acme_entry 0 "a"; stray_entry; acme_entry 0 "bb"]
           (graph (upsert_loop
                     [acme_entry 0 "a"; stray_entry; acme_entry 0 "bb"]
                     stocked_graph)))
  = graph (upsert_loop [acme_entry 0 "a"; stray_entry; acme_entry 0 "bb"]
             stocked_graph).
Proof.
  apply (second_load_changes_nothing
           [acme_entry 0 "a"; stray_entry; acme_entry 0 "bb"] stocked_graph).
  exact stocked_graph_well_formed.
Defined.

(** X20 on the store that knows Acme only. *)
Lemma loaded_records_read_back_witness :
  emb_df (graph (upsert_loop [acme_entry 0 "a"; acme_entry 1 "bb"]
                   acme_graph))
  = [("Acme", "Acme0", Some "a", Some [1%Z]);
     ("Acme", "Acme1", Some "bb", Some [2%Z])]%string /\
  In ("Acme", "Acme1", Some "bb", Some [2%Z])%string
    (emb_df (graph (upsert_loop [acme_entry 0 "a"; acme_entry 1 "bb"]
                      acme_graph))).
Proof.
  split; [reflexivity |].
  apply (proj2 (loaded_records_read_back
                  [acme_entry 0 "a"; acme_entry 1 "bb"] acme_graph
                  (acme_entry 1 "bb") acme_company
                  acme_graph_well_formed
                  ltac:(right; left; reflexivity)
                  ltac:(left; reflexivity) eq_refl eq_refl)).
  apply Nat.leb_le. vm_compute. reflexivity.
Defined.

(** X21 on the store that knows Acme only. *)
Lemma companies_with_documents_after_load_witness :
  numWithDocs acme_graph = 0 /\
  numWithDocs (graph (upsert_loop [acme_entry 0 "a"] acme_graph)) = 1 /\
  0 < docCount (graph (upsert_loop [acme_entry 0 "a"] acme_graph))
        acme_company.
Proof.
  split; [reflexivity |]. split; [reflexivity |].
  apply (proj2 (proj2 (proj2 (companies_with_documents_after_load
                                [acme_entry 0 "a"] acme_graph)))
           acme_company (acme_entry 0 "a")).
  - left. reflexivity.
  - left. reflexivity.
  - reflexivity.
Defined.


(** ** Where the scenario and the uniqueness of names fail *)

(** C3, counterexample.  A business description of 5000 characters, with
    chunk size 2000 and overlap 15, need not give 3 chunks: a splitter
    that cuts at paragraph breaks gives 4 chunks of at most 2000
    characters for a text of four paragraphs, and the notebook then
    persists 4 Document nodes, "Acme0" to "Acme3", not 3. *)
Lemma description_5000_in_four_chunks :
  String.length paragraphs_5000 = 5000 /\
  map String.length (paragraph_split 2000 15 paragraphs_5000)
  = [1248; 1248; 1248; 1250] /\
  List.length (paragraph_split 2000 15 paragraphs_5000) <> 3 /\
  exists loader,
    notebook (paragraph_split 2000 15) length_model no_sleep
      paragraphs_archive ["0001830197-22-000038.txt"%string] acme_graph 0
    = (Ok loader, 2) /\
    document_ids (graph loader)
    = ["Acme0"; "Acme1"; "Acme2"; "Acme3"]%string /\
    document_count (graph loader) = 4 /\
    document_count (graph loader) <> 3 /\
    Forall (linked (graph loader) acme_company)
      ["Acme0"; "Acme1"; "Acme2"; "Acme3"]%string.
Proof.
  split; [vm_compute; reflexivity |].
  split; [vm_compute; reflexivity |].
  split; [vm_compute; discriminate |].
  eexists. split; [vm_compute; reflexivity |].
  split; [reflexivity |]. split; [reflexivity |].
  split; [discriminate |].
  repeat constructor; unfold linked; cbn.
  - eexists. split; [left; reflexivity |]. split; [reflexivity |].
    left. reflexivity.
  - eexists. split; [right; left; reflexivity |]. split; [reflexivity |].
    right. left. reflexivity.
  - eexists. split; [right; right; left; reflexivity |].
    split; [reflexivity |]. right. right. left. reflexivity.
  - eexists. split; [right; right; right; left; reflexivity |].
    split; [reflexivity |]. right. right. right. left. reflexivity.
Qed.

(** C7, counterexample.  Two filings with the company name "Acme", the
    second with a text the splitter cuts into no chunk: the synthetic ids
    of the run are pairwise distinct, the company names of the two filings
    are not. *)
Lemma distinct_ids_same_name :
  exists es,
    embedding_entries (window_split 3 0) length_model no_sleep
      acme_twice_archive ["a.txt"; "b.txt"]%string 0 = (Ok es, 2) /\
    map contextId es = ["Acme0"; "Acme1"; "Acme2"; "Acme3"]%string /\
    NoDup (map contextId es) /\
    map (fun f => f10k_companyName (acme_twice_archive f))
      (filter (contains ".txt") (file_names ["a.txt"; "b.txt"]%string))
    = ["Acme"; "Acme"]%string /\
    ~ NoDup (map (fun f => f10k_companyName (acme_twice_archive f))
               (filter (contains ".txt")
                  (file_names ["a.txt"; "b.txt"]%string))).
Proof.
  eexists. split; [vm_compute; reflexivity |].
  split; [reflexivity |]. split.
  - repeat constructor; cbn; intros H;
      repeat (destruct H as [H | H]; [discriminate |]); exact H.
  - split; [reflexivity |]. intros H.
    change (NoDup ["Acme"; "Acme"]%string) in H.
    inversion H as [| ? ? Hin _]; subst. apply Hin. left. reflexivity.
Qed.
